(** * pi-mono extensions: approval gate and uptime reporter

    A shallow embedding of [src/extensions/approval-mode.ts] and
    [src/extensions/runtime-uptime.ts], followed by the properties the
    specification states about them.

    Both extensions are closures over one or two mutable variables that talk
    to a host through a context object.  Handlers are embedded as functions
    in a state monad over a world that holds the closure variables, the part
    of the host the handlers read back (the session branch, the interval
    table, the clock) and the ordered log of every host call they make. *)

From Stdlib Require Import ZArith List Bool Lia.
From Stdlib Require Import Ascii String DecimalString.
From Stdlib Require DecimalZ DecimalPos.
Import ListNotations.

Local Open Scope string_scope.
Local Open Scope Z_scope.

(** ** JavaScript values and the string primitives the extensions use *)

Module Js.

#[local] Set Warnings "-register-all".

(** A plain-data JavaScript value.  Object fields are kept in insertion
    order, the order [JSON.stringify] walks them in.  Numbers are the
    integer-valued ones. *)
Inductive JValue : Type :=
| JUndefined
| JNull
| JBool (b : bool)
| JNum (z : Z)
| JStr (s : string)
| JArr (items : list JValue)
| JObj (fields : list (string * JValue)).

Definition nl : string := String "010"%char EmptyString.
Definition dquote : string := String "034"%char EmptyString.
Definition backslash : string := String "092"%char EmptyString.

(** [Number.prototype.toString] on an integer. *)
Definition toString (z : Z) : string := NilZero.string_of_int (Z.to_int z).

Fixpoint repeat_string (fill : string) (n : nat) : string :=
  match n with
  | O => EmptyString
  | S k => fill ++ repeat_string fill k
  end.

(** [String.prototype.padStart]: nothing to do when the string is long
    enough or the filler is empty; otherwise the filler is repeated and cut
    to the missing length. *)
Definition padStart (targetLength : nat) (padString : string) (s : string) : string :=
  let len := String.length s in
  if (targetLength <=? len)%nat then s
  else if (String.length padString =? 0)%nat then s
  else
    let fillLen := (targetLength - len)%nat in
    substring 0 fillLen (repeat_string padString fillLen) ++ s.

(** Property read [obj.key]: own fields of an object, [undefined] on
    everything else the extensions can meet. *)
Fixpoint lookup_field (key : string) (fields : list (string * JValue)) : JValue :=
  match fields with
  | [] => JUndefined
  | (k, v) :: rest => if String.eqb k key then v else lookup_field key rest
  end.

(** Optional chaining [v?.key]. *)
Definition get_opt (v : JValue) (key : string) : JValue :=
  match v with
  | JObj fields => lookup_field key fields
  | _ => JUndefined
  end.

(** [typeof v === "string" ? v : dflt]. *)
Definition string_or (v : JValue) (dflt : string) : string :=
  match v with
  | JStr s => s
  | _ => dflt
  end.

(** *** JSON.stringify *)

Definition hex_digit (n : nat) : ascii :=
  nth n (list_ascii_of_string "0123456789abcdef") "0"%char.

Definition escape_char (c : ascii) : string :=
  let n := nat_of_ascii c in
  if (n =? 34)%nat then backslash ++ dquote
  else if (n =? 92)%nat then backslash ++ backslash
  else if (n =? 8)%nat then backslash ++ "b"
  else if (n =? 9)%nat then backslash ++ "t"
  else if (n =? 10)%nat then backslash ++ "n"
  else if (n =? 12)%nat then backslash ++ "f"
  else if (n =? 13)%nat then backslash ++ "r"
  else if (n <? 32)%nat then
    backslash ++ "u00" ++ String (hex_digit (n / 16)) (String (hex_digit (n mod 16)) EmptyString)
  else String c EmptyString.

Fixpoint escape (s : string) : string :=
  match s with
  | EmptyString => EmptyString
  | String c rest => escape_char c ++ escape rest
  end.

(** QuoteJSONString. *)
Definition quote (s : string) : string := dquote ++ escape s ++ dquote.

Fixpoint join (sep : string) (parts : list string) : string :=
  match parts with
  | [] => EmptyString
  | [p] => p
  | p :: rest => p ++ sep ++ join sep rest
  end.

(** The closing step shared by SerializeJSONObject and SerializeJSONArray. *)
Definition wrap (gap stepback indent lb rb : string) (parts : list string) : string :=
  match parts with
  | [] => lb ++ rb
  | _ =>
    if (String.length gap =? 0)%nat then lb ++ join "," parts ++ rb
    else lb ++ nl ++ indent ++ join ("," ++ nl ++ indent) parts ++ nl ++ stepback ++ rb
  end.

(** SerializeJSONProperty with gap [gap] at the current indentation;
    [None] is JavaScript's [undefined] result. *)
Fixpoint serialize (gap indent : string) (v : JValue) : option string :=
  match v with
  | JUndefined => None
  | JNull => Some "null"
  | JBool true => Some "true"
  | JBool false => Some "false"
  | JNum z => Some (toString z)
  | JStr s => Some (quote s)
  | JArr items =>
    let inner := indent ++ gap in
    let parts :=
      (fix elems (l : list JValue) : list string :=
         match l with
         | [] => []
         | x :: rest =>
           match serialize gap inner x with
           | Some s => s
           | None => "null"
           end :: elems rest
         end) items in
    Some (wrap gap indent inner "[" "]" parts)
  | JObj fields =>
    let inner := indent ++ gap in
    let colon := if (String.length gap =? 0)%nat then ":" else ": " in
    let parts :=
      (fix members (l : list (string * JValue)) : list string :=
         match l with
         | [] => []
         | (k, x) :: rest =>
           match serialize gap inner x with
           | Some s => (quote k ++ colon ++ s) :: members rest
           | None => members rest
           end
         end) fields in
    Some (wrap gap indent inner "{" "}" parts)
  end.

(** [JSON.stringify(value, null, 2)] on an object. *)
Definition stringify2 (fields : list (string * JValue)) : string :=
  match serialize "  " EmptyString (JObj fields) with
  | Some s => s
  | None => EmptyString
  end.

End Js.

(** ** The state monad the handlers run in *)

Definition State (W A : Type) : Type := W -> A * W.

Definition ret {W A : Type} (a : A) : State W A := fun w => (a, w).

Definition bind {W A B : Type} (c : State W A) (k : A -> State W B) : State W B :=
  fun w => let (a, w') := c w in k a w'.

Definition exec {W A : Type} (c : State W A) (w : W) : W := snd (c w).
Definition eval {W A : Type} (c : State W A) (w : W) : A := fst (c w).

Declare Scope state_scope.
Delimit Scope state_scope with state.
Notation "x <- c ;; k" := (bind c (fun x => k))
  (at level 61, c at next level, right associativity) : state_scope.
Notation "c ;; k" := (bind c (fun _ => k))
  (at level 61, right associativity) : state_scope.

(** [sub] occurs somewhere inside [s]. *)
Definition contains (sub s : string) : Prop :=
  exists before after : string, s = before ++ sub ++ after.

(** ** approval-mode.ts *)

Module ApprovalMode.
Import Js.

Definition STATE_ENTRY_TYPE : string := "approval-mode-state".

(** The two members of the [ApprovalMode] union type. *)
Inductive ApprovalMode : Type := AllowAll | ApproveAll.

Definition mode_string (m : ApprovalMode) : string :=
  match m with
  | AllowAll => "allow-all"
  | ApproveAll => "approve-all"
  end.

(** A session entry, as far as the extension looks at it. *)
Record Entry : Type := mkEntry {
  type : string;
  customType : option string;
  data : JValue
}.

(** The host calls a handler makes, in the order it makes them.  A
    [Confirm] records the answer the dialog resolved to. *)
Inductive Call : Type :=
| Confirm (title message : string) (answer : bool)
| Notify (message level : string)
| SetStatus (key : string) (text : option string)
| AppendEntry (entryType : string) (payload : JValue).

(** The closure variable [mode] (a string or [undefined] at run time: the
    TypeScript annotation is erased), the active branch of the session and
    the log of host calls. *)
Record World : Type := mkWorld {
  mode : option string;
  branch : list Entry;
  calls : list Call
}.

(** What a handler reads from its [ctx]: [ctx.hasUI], [ctx.ui.theme.fg] and
    the user behind [ctx.ui.confirm], who gives the n-th dialog of the
    session the answer [answers n]. *)
Record Ctx : Type := mkCtx {
  hasUI : bool;
  fg : string -> string -> string;
  answers : nat -> bool
}.

Record ToolCallEvent : Type := mkToolCall {
  toolName : string;
  input : list (string * JValue)
}.

(** [{ block: true, reason }]. *)
Record ToolCallEventResult : Type := mkResult {
  block : bool;
  reason : string
}.

Definition M (A : Type) : Type := State World A.

Local Open Scope state_scope.

Definition get_mode : M (option string) := fun w => (mode w, w).

Definition set_mode (m : option string) : M unit :=
  fun w => (tt, mkWorld m (branch w) (calls w)).

Definition log (c : Call) : M unit :=
  fun w => (tt, mkWorld (mode w) (branch w) (calls w ++ [c])).

Fixpoint prompt_count (l : list Call) : nat :=
  match l with
  | [] => O
  | Confirm _ _ _ :: rest => S (prompt_count rest)
  | _ :: rest => prompt_count rest
  end.

(** [ctx.ui.confirm(title, message)]. *)
Definition confirm (ctx : Ctx) (title message : string) : M bool :=
  fun w =>
    let a := answers ctx (prompt_count (calls w)) in
    (a, mkWorld (mode w) (branch w) (calls w ++ [Confirm title message a])).

(** [ctx.ui.notify(message, level)]. *)
Definition notify (message level : string) : M unit := log (Notify message level).

(** [ctx.ui.setStatus(key, text)]. *)
Definition setStatus (key : string) (text : option string) : M unit :=
  log (SetStatus key text).

(** [pi.appendEntry(customType, data)]: the entry becomes the new leaf of
    the active branch. *)
Definition appendEntry (entryType : string) (payload : JValue) : M unit :=
  fun w =>
    (tt, mkWorld (mode w)
                 (branch w ++ [mkEntry "custom" (Some entryType) payload])
                 (calls w ++ [AppendEntry entryType payload])).

(** [ctx.sessionManager.getBranch()]. *)
Definition getBranch : M (list Entry) := fun w => (branch w, w).

(** Truthiness of [mode]: [undefined] and the empty string are falsy. *)
Definition truthy (m : option string) : bool :=
  match m with
  | Some s => negb (String.eqb s EmptyString)
  | None => false
  end.

(** [mode === lit]. *)
Definition mode_is (m : option string) (lit : string) : bool :=
  match m with
  | Some s => String.eqb s lit
  | None => false
  end.

(** [v === lit] for a string literal. *)
Definition strict_eq (v : JValue) (lit : string) : bool :=
  match v with
  | JStr s => String.eqb s lit
  | _ => false
  end.

(** A template literal's rendering of [mode]. *)
Definition mode_text (m : option string) : string :=
  match m with
  | Some s => s
  | None => "undefined"
  end.

Definition mode_value (m : option string) : JValue :=
  match m with
  | Some s => JStr s
  | None => JUndefined
  end.

Definition formatToolInput (toolName : string) (input : list (string * JValue)) : string :=
  if String.eqb toolName "bash" then
    let command := string_or (lookup_field "command" input) "(missing command)" in
    "command: " ++ command
  else if String.eqb toolName "write" then
    let filePath := string_or (lookup_field "filePath" input) "(missing filePath)" in
    "filePath: " ++ filePath
  else if String.eqb toolName "edit" then
    let filePath := string_or (lookup_field "filePath" input) "(missing filePath)" in
    "filePath: " ++ filePath
  else if String.eqb toolName "read" then
    let filePath := string_or (lookup_field "filePath" input) "(missing filePath)" in
    "filePath: " ++ filePath
  else stringify2 input.

Definition modeStatusText (ctx : Ctx) (mode : option string) : option string :=
  if negb (truthy mode) then None
  else if mode_is mode "allow-all" then Some (fg ctx "dim" "approval: allow all")
  else Some (fg ctx "warning" "approval: confirm each tool").

Definition persistMode : M unit :=
  mode <- get_mode ;;
  if negb (truthy mode) then ret tt
  else appendEntry STATE_ENTRY_TYPE (JObj [("mode", mode_value mode)]).

Definition customType_is (e : Entry) (lit : string) : bool :=
  match customType e with
  | Some s => String.eqb s lit
  | None => false
  end.

(** One turn of the loop in [restoreModeFromBranch]. *)
Definition scan_entry (restored : option string) (entry : Entry) : option string :=
  if negb (String.eqb (type entry) "custom") || negb (customType_is entry STATE_ENTRY_TYPE)
  then restored
  else
    let mode := get_opt (data entry) "mode" in
    if strict_eq mode "allow-all" || strict_eq mode "approve-all" then
      match mode with
      | JStr s => Some s
      | _ => restored
      end
    else restored.

(** [restored ?? mode]. *)
Definition coalesce (restored mode : option string) : option string :=
  match restored with
  | Some s => Some s
  | None => mode
  end.

Definition restoreModeFromBranch (ctx : Ctx) : M unit :=
  entries <- getBranch ;;
  let restored := fold_left scan_entry entries None in
  mode <- get_mode ;;
  set_mode (coalesce restored mode) ;;
  mode <- get_mode ;;
  setStatus "approval-mode" (modeStatusText ctx mode).

Definition permission_prompt : string :=
  "Enable everything (no per-tool confirmations)?" ++ nl ++ nl ++
  "Yes = allow all" ++ nl ++ "No = ask for each tool call".

Definition ensureModeSelected (ctx : Ctx) : M unit :=
  mode <- get_mode ;;
  if truthy mode then setStatus "approval-mode" (modeStatusText ctx mode)
  else if negb (hasUI ctx) then
    set_mode (Some "approve-all") ;;
    persistMode
  else
    allowAll <- confirm ctx "Permission mode" permission_prompt ;;
    set_mode (Some (if allowAll : bool then "allow-all" else "approve-all")) ;;
    persistMode ;;
    mode <- get_mode ;;
    setStatus "approval-mode" (modeStatusText ctx mode).

Definition getEventInput (event : ToolCallEvent) : list (string * JValue) := input event.

(** Handler of the [approval-mode] command. *)
Definition command_approval_mode (ctx : Ctx) : M unit :=
  if negb (hasUI ctx) then notify "No interactive UI available" "warning"
  else
    allowAll <- confirm ctx "Permission mode" permission_prompt ;;
    set_mode (Some (if allowAll : bool then "allow-all" else "approve-all")) ;;
    persistMode ;;
    mode <- get_mode ;;
    setStatus "approval-mode" (modeStatusText ctx mode) ;;
    mode <- get_mode ;;
    notify ("Permission mode set to " ++ mode_text mode) "info".

Definition on_session_start (ctx : Ctx) : M unit :=
  restoreModeFromBranch ctx ;;
  mode <- get_mode ;;
  if truthy mode then setStatus "approval-mode" (modeStatusText ctx mode)
  else ret tt.

Definition on_session_tree (ctx : Ctx) : M unit := restoreModeFromBranch ctx.

Definition on_session_fork (ctx : Ctx) : M unit := restoreModeFromBranch ctx.

(** [if (!mode) await ensureModeSelected(ctx)], the first statement of the
    [input] and [tool_call] handlers: the policy after it is the resolved
    policy. *)
Definition resolve (ctx : Ctx) : M unit :=
  mode <- get_mode ;;
  if negb (truthy mode) then ensureModeSelected ctx else ret tt.

(** [{ action: "continue" }]. *)
Inductive InputEventResult : Type := Continue.

Definition on_input (ctx : Ctx) : M InputEventResult :=
  resolve ctx ;;
  ret Continue.

(** The statements of the [tool_call] handler after the policy is resolved. *)
Definition gate (ctx : Ctx) (event : ToolCallEvent) : M (option ToolCallEventResult) :=
  mode <- get_mode ;;
  if negb (mode_is mode "approve-all") then ret None
  else if negb (hasUI ctx) then
    ret (Some (mkResult true
      "Tool call blocked (approve-all mode requires interactive confirmation)"))
  else
    let input := getEventInput event in
    confirmed <- confirm ctx "Approve tool call?"
      ("Tool: " ++ toolName event ++ nl ++ formatToolInput (toolName event) input) ;;
    if negb confirmed then
      ret (Some (mkResult true ("Blocked by user (tool: " ++ toolName event ++ ")")))
    else ret None.

Definition on_tool_call (ctx : Ctx) (event : ToolCallEvent) : M (option ToolCallEventResult) :=
  resolve ctx ;;
  gate ctx event.

(** What the host can do to the extension: deliver one of the events it
    subscribed to, run its command, or move the session to another branch. *)
Inductive Step : Type :=
| SessionStart
| SessionTree
| SessionFork
| Input
| ToolCall (event : ToolCallEvent)
| Command
| Navigate (entries : list Entry).

Definition step (ctx : Ctx) (s : Step) (w : World) : World :=
  match s with
  | SessionStart => exec (on_session_start ctx) w
  | SessionTree => exec (on_session_tree ctx) w
  | SessionFork => exec (on_session_fork ctx) w
  | Input => exec (on_input ctx) w
  | ToolCall event => exec (on_tool_call ctx event) w
  | Command => exec (command_approval_mode ctx) w
  | Navigate entries => mkWorld (mode w) entries (calls w)
  end.

Definition run (ctx : Ctx) (steps : list Step) (w : World) : World :=
  fold_left (fun w s => step ctx s w) steps w.

(** The extension right after [approvalModeExtension(pi)] returned. *)
Definition initial (entries : list Entry) : World := mkWorld None entries [].

(** The status-bar fragment under [key] after the logged calls. *)
Fixpoint status_of (key : string) (shown : option string) (l : list Call) : option string :=
  match l with
  | [] => shown
  | SetStatus k text :: rest =>
    status_of key (if String.eqb k key then text else shown) rest
  | _ :: rest => status_of key shown rest
  end.

(** The last policy-change entry in branch order, in the specification's
    words: a custom entry with the policy-change tag and a valid mode
    payload. *)
Definition is_policy_change (e : Entry) : bool :=
  String.eqb (type e) "custom" && customType_is e STATE_ENTRY_TYPE &&
  (strict_eq (get_opt (data e) "mode") "allow-all" ||
   strict_eq (get_opt (data e) "mode") "approve-all").

Definition policy_of (e : Entry) : option string :=
  match get_opt (data e) "mode" with
  | JStr s => Some s
  | _ => None
  end.

Definition last_policy_change (entries : list Entry) : option string :=
  match find is_policy_change (rev entries) with
  | Some e => policy_of e
  | None => None
  end.

Definition policy_entry (m : string) : Entry :=
  mkEntry "custom" (Some STATE_ENTRY_TYPE) (JObj [("mode", JStr m)]).

(** The tool names [formatToolInput] has a designated field for. *)
Definition known_tool (name : string) : bool :=
  existsb (String.eqb name) ["bash"; "write"; "edit"; "read"].

(** A handler result that vetoes the tool call. *)
Definition blocks (r : option ToolCallEventResult) : bool :=
  match r with
  | Some x => block x
  | None => false
  end.

Definition is_approval_prompt (c : Call) : bool :=
  match c with
  | Confirm title _ _ => String.eqb title "Approve tool call?"
  | _ => false
  end.

Definition is_prompt (c : Call) : bool :=
  match c with
  | Confirm _ _ _ => true
  | _ => false
  end.

(** The values the [ApprovalMode] type admits for the variable [mode]. *)
Definition valid_mode (m : option string) : Prop :=
  m = None \/ exists a : ApprovalMode, m = Some (mode_string a).

(** The policy a resolution picks when none is set. *)
Definition selected (ctx : Ctx) (w : World) : string :=
  if hasUI ctx then
    if answers ctx (prompt_count (calls w)) then "allow-all" else "approve-all"
  else "approve-all".

(** The branch would restore allow-all. *)
Definition records_allow_all (entries : list Entry) : bool :=
  match last_policy_change entries with
  | Some s => String.eqb s "allow-all"
  | None => false
  end.

(** A step that does not move the session onto a branch recording allow-all. *)
Definition keeps_strict (s : Step) : bool :=
  match s with
  | Navigate entries => negb (records_allow_all entries)
  | _ => true
  end.

(** Sample contexts: a plain theme, and a user who answers every dialog
    the same way. *)
Definition plain (style text : string) : string := text.
Definition headless : Ctx := mkCtx false plain (fun _ => false).
Definition user_says (a : bool) : Ctx := mkCtx true plain (fun _ => a).

(** A reload: a new extension instance, handed [session_start] on the
    branch the old one left behind. *)
Definition reload (ctx : Ctx) (w : World) : World :=
  step ctx SessionStart (initial (branch w)).

Definition is_navigate (s : Step) : bool :=
  match s with
  | Navigate _ => true
  | _ => false
  end.

(** The steps in which only the extension itself touches the branch. *)
Definition stays_on_branch (steps : list Step) : bool :=
  forallb (fun s => negb (is_navigate s)) steps.

(** How many tool-approval dialogs the log holds. *)
Definition approval_prompts (l : list Call) : nat :=
  List.length (filter is_approval_prompt l).

(** The status display shows the text of the policy in memory. *)
Definition status_current (ctx : Ctx) (w : World) : Prop :=
  status_of "approval-mode" None (calls w) = modeStatusText ctx (mode w).

(** The policy in memory, when set, is the one the branch records last. *)
Definition recorded (w : World) : Prop :=
  mode w = None \/ last_policy_change (branch w) = mode w.

End ApprovalMode.

(** ** runtime-uptime.ts *)

Module RuntimeUptime.
Import Js.

(** [ms] is a difference of two [Date.now()] readings, an integer number
    of milliseconds.  [Math.floor] of the quotient is [Z.div], and [%] is
    the remainder that takes the sign of the dividend, [Z.rem]. *)
Definition formatDuration (ms : Z) : string :=
  let totalSeconds := Z.max 0 (ms / 1000) in
  let hours := totalSeconds / 3600 in
  let minutes := Z.rem totalSeconds 3600 / 60 in
  let seconds := Z.rem totalSeconds 60 in
  padStart 2 "0" (toString hours) ++ ":" ++
  padStart 2 "0" (toString minutes) ++ ":" ++
  padStart 2 "0" (toString seconds).

(** What a handler reads from its [ctx]: [ctx.ui.theme.fg]. *)
Record Ctx : Type := mkCtx {
  fg : string -> string -> string
}.

(** A [setInterval] handle.  The host is Node, whose handles are objects:
    every handle is truthy. *)
Definition Handle : Type := nat.

Inductive Call : Type :=
| SetStatus (key : string) (text : option string)
| Notify (message level : string)
| SetInterval (handle : Handle) (period : Z)
| ClearInterval (handle : Handle).

(** The closure variables [startTimeMs] and [timer], the host's clock and
    interval table, and the log of host calls.  Every interval the
    extension arms runs the same callback, [() => renderStatus(ctx,
    startTimeMs)], so the table keeps the [ctx] each one captured. *)
Record World : Type := mkWorld {
  startTimeMs : Z;
  timer : option Handle;
  now : Z;
  intervals : list (Handle * Ctx);
  nextHandle : Handle;
  calls : list Call
}.

Definition M (A : Type) : Type := State World A.

Local Open Scope state_scope.

Definition get_startTimeMs : M Z := fun w => (startTimeMs w, w).

Definition get_timer : M (option Handle) := fun w => (timer w, w).

Definition set_timer (t : option Handle) : M unit :=
  fun w => (tt, mkWorld (startTimeMs w) t (now w) (intervals w) (nextHandle w) (calls w)).

(** [Date.now()]. *)
Definition date_now : M Z := fun w => (now w, w).

Definition log (c : Call) : M unit :=
  fun w => (tt, mkWorld (startTimeMs w) (timer w) (now w) (intervals w) (nextHandle w)
                        (calls w ++ [c])).

Definition setStatus (key : string) (text : option string) : M unit :=
  log (SetStatus key text).

Definition notify (message level : string) : M unit := log (Notify message level).

(** [setInterval(callback, period)]: a handle the host has not used yet. *)
Definition setInterval (ctx : Ctx) (period : Z) : M Handle :=
  fun w =>
    let h := nextHandle w in
    (h, mkWorld (startTimeMs w) (timer w) (now w) (intervals w ++ [(h, ctx)]) (S h)
                (calls w ++ [SetInterval h period])).

(** [clearInterval(handle)]. *)
Definition clearInterval (h : Handle) : M unit :=
  fun w =>
    (tt, mkWorld (startTimeMs w) (timer w) (now w)
                 (filter (fun p => negb (Nat.eqb (fst p) h)) (intervals w))
                 (nextHandle w) (calls w ++ [ClearInterval h])).

Definition renderStatus (ctx : Ctx) (startTimeMs : Z) : M unit :=
  t <- date_now ;;
  let elapsed := formatDuration (t - startTimeMs) in
  let text := fg ctx "dim" ("uptime " ++ elapsed) in
  setStatus "runtime-uptime" (Some text).

Definition stopTimer : M unit :=
  timer <- get_timer ;;
  match timer with
  | None => ret tt
  | Some h =>
    clearInterval h ;;
    set_timer None
  end.

Definition startTimer (ctx : Ctx) : M unit :=
  stopTimer ;;
  startTimeMs <- get_startTimeMs ;;
  renderStatus ctx startTimeMs ;;
  h <- setInterval ctx 1000 ;;
  set_timer (Some h).

(** Handler of the [uptime] command. *)
Definition command_uptime (ctx : Ctx) : M unit :=
  t <- date_now ;;
  startTimeMs <- get_startTimeMs ;;
  let elapsed := formatDuration (t - startTimeMs) in
  notify ("pi runtime: " ++ elapsed) "info" ;;
  renderStatus ctx startTimeMs.

Definition on_session_start (ctx : Ctx) : M unit := startTimer ctx.

Definition on_session_switch (ctx : Ctx) : M unit := startTimer ctx.

Definition on_session_shutdown (ctx : Ctx) : M unit :=
  stopTimer ;;
  setStatus "runtime-uptime" None.

(** The host firing interval [h]: its callback runs if it is still armed. *)
Definition tick (h : Handle) : M unit :=
  fun w =>
    match find (fun p => Nat.eqb (fst p) h) (intervals w) with
    | Some (_, ctx) => renderStatus ctx (startTimeMs w) w
    | None => (tt, w)
    end.

(** What the host can do to the extension; [Clock t] is the wall clock
    moving to [t], forwards or backwards. *)
Inductive Step : Type :=
| SessionStart (ctx : Ctx)
| SessionSwitch (ctx : Ctx)
| SessionShutdown (ctx : Ctx)
| Command (ctx : Ctx)
| Tick (h : Handle)
| Clock (t : Z).

Definition step (s : Step) (w : World) : World :=
  match s with
  | SessionStart ctx => exec (on_session_start ctx) w
  | SessionSwitch ctx => exec (on_session_switch ctx) w
  | SessionShutdown ctx => exec (on_session_shutdown ctx) w
  | Command ctx => exec (command_uptime ctx) w
  | Tick h => exec (tick h) w
  | Clock t => mkWorld (startTimeMs w) (timer w) t (intervals w) (nextHandle w) (calls w)
  end.

Definition run (steps : list Step) (w : World) : World :=
  fold_left (fun w s => step s w) steps w.

(** The extension right after [runtimeUptimeExtension(pi)] returned at
    time [t]. *)
Definition initial (t : Z) : World := mkWorld t None t [] O [].

(** The handles armed in the host. *)
Definition active (w : World) : list Handle := map fst (intervals w).

(** The one handle the extension holds, if any. *)
Definition held (w : World) : list Handle :=
  match timer w with
  | Some h => [h]
  | None => []
  end.

(** The extension holds the handle of every interval the host has armed. *)
Definition consistent (w : World) : Prop := active w = held w.

(** The [clearInterval] call [stopTimer] makes. *)
Definition cancels (w : World) : list Call :=
  match timer w with
  | Some h => [ClearInterval h]
  | None => []
  end.

(** What [renderStatus] shows at time [t] for a process started at [t0]. *)
Definition uptime_text (ctx : Ctx) (t0 t : Z) : string :=
  fg ctx "dim" ("uptime " ++ formatDuration (t - t0)).

(** One field of the clock display. *)
Definition pad2 (z : Z) : string := padStart 2 "0" (toString z).

Definition plain : Ctx := mkCtx (fun style text => text).

(** The status-bar fragment under [key] after the logged calls. *)
Fixpoint status_of (key : string) (shown : option string) (l : list Call) : option string :=
  match l with
  | [] => shown
  | SetStatus k text :: rest =>
    status_of key (if String.eqb k key then text else shown) rest
  | _ :: rest => status_of key shown rest
  end.

End RuntimeUptime.

(** ** Properties of the approval gate *)

Module ApprovalModeSpec.
Import Js ApprovalMode.

Ltac unfold_gate :=
  unfold step, on_tool_call, on_input, on_session_start, on_session_tree,
    on_session_fork, command_approval_mode, gate, resolve, ensureModeSelected,
    restoreModeFromBranch, persistMode, appendEntry, getBranch, confirm, notify,
    setStatus, log, set_mode, get_mode, getEventInput, exec, eval, bind, ret in *.

(** *** The branch scan *)

Lemma scan_entry_spec (acc : option string) (e : Entry) :
  scan_entry acc e = if is_policy_change e then policy_of e else acc.
Proof.
  unfold scan_entry, is_policy_change, policy_of.
  destruct (String.eqb (type e) "custom"); simpl; [|reflexivity].
  destruct (customType_is e STATE_ENTRY_TYPE); simpl; [|reflexivity].
  destruct (get_opt (data e) "mode"); simpl; reflexivity.
Qed.

Lemma policy_change_valid (e : Entry) :
  is_policy_change e = true ->
  policy_of e = Some "allow-all" \/ policy_of e = Some "approve-all".
Proof.
  unfold is_policy_change, policy_of. intros H.
  apply andb_prop in H. destruct H as [_ H].
  destruct (get_opt (data e) "mode"); simpl in H; try discriminate.
  apply orb_prop in H. destruct H as [H | H]; apply String.eqb_eq in H; subst; auto.
Qed.

Lemma last_policy_change_snoc (entries : list Entry) (e : Entry) :
  last_policy_change (entries ++ [e]) =
  if is_policy_change e then policy_of e else last_policy_change entries.
Proof.
  unfold last_policy_change. rewrite rev_unit. simpl.
  destruct (is_policy_change e); reflexivity.
Qed.

Lemma last_policy_change_valid (entries : list Entry) (s : string) :
  last_policy_change entries = Some s -> s = "allow-all" \/ s = "approve-all".
Proof.
  unfold last_policy_change.
  destruct (find is_policy_change (rev entries)) as [e|] eqn:F; [|discriminate].
  apply find_some in F. destruct F as [_ F].
  destruct (policy_change_valid e F) as [H | H]; rewrite H; intros [= <-]; auto.
Qed.

Lemma scan_branch (entries : list Entry) (acc : option string) :
  fold_left scan_entry entries acc = coalesce (last_policy_change entries) acc.
Proof.
  induction entries as [|e entries IH] using rev_ind.
  - reflexivity.
  - rewrite fold_left_app, last_policy_change_snoc. simpl.
    rewrite IH, scan_entry_spec.
    destruct (is_policy_change e) eqn:E; [|reflexivity].
    destruct (policy_change_valid e E) as [H | H]; rewrite H; reflexivity.
Qed.

Lemma coalesce_none (m : option string) : coalesce m None = m.
Proof. destruct m; reflexivity. Qed.

Lemma restore_mode (ctx : Ctx) (w : World) :
  mode (exec (restoreModeFromBranch ctx) w) =
  coalesce (last_policy_change (branch w)) (mode w).
Proof.
  unfold_gate. simpl. rewrite scan_branch, coalesce_none. reflexivity.
Qed.

Lemma restore_branch (ctx : Ctx) (w : World) :
  branch (exec (restoreModeFromBranch ctx) w) = branch w.
Proof. reflexivity. Qed.

Lemma on_tool_call_split (ctx : Ctx) (event : ToolCallEvent) (w : World) :
  on_tool_call ctx event w = gate ctx event (exec (resolve ctx) w).
Proof.
  unfold on_tool_call, bind, exec.
  destruct (resolve ctx w) as [[] w']. reflexivity.
Qed.

(** *** What each operation does to the policy and to the branch *)

Lemma resolve_mode (ctx : Ctx) (w : World) :
  mode (exec (resolve ctx) w) =
  if truthy (mode w) then mode w else Some (selected ctx w).
Proof.
  destruct w as [m b c]. unfold selected. unfold_gate. simpl.
  destruct (truthy m) eqn:T; simpl; [reflexivity|]. rewrite T.
  destruct (hasUI ctx); simpl; [|reflexivity].
  destruct (answers ctx (prompt_count c)); reflexivity.
Qed.

Lemma resolve_branch (ctx : Ctx) (w : World) :
  branch (exec (resolve ctx) w) =
  if truthy (mode w) then branch w
  else (branch w ++ [policy_entry (selected ctx w)])%list.
Proof.
  destruct w as [m b c]. unfold selected. unfold_gate. simpl.
  destruct (truthy m) eqn:T; simpl; [reflexivity|]. rewrite T.
  destruct (hasUI ctx); simpl; [|reflexivity].
  destruct (answers ctx (prompt_count c)); reflexivity.
Qed.

Lemma resolve_set (ctx : Ctx) (w : World) :
  truthy (mode w) = true -> exec (resolve ctx) w = w.
Proof.
  destruct w as [m b c]. unfold_gate. simpl. intros ->. reflexivity.
Qed.

Lemma gate_mode (ctx : Ctx) (event : ToolCallEvent) (w : World) :
  mode (exec (gate ctx event) w) = mode w.
Proof.
  destruct w as [m b c]. unfold_gate. simpl.
  destruct (mode_is m "approve-all"); simpl; [|reflexivity].
  destruct (hasUI ctx); simpl; [|reflexivity].
  destruct (answers ctx (prompt_count c)); reflexivity.
Qed.

Lemma gate_branch (ctx : Ctx) (event : ToolCallEvent) (w : World) :
  branch (exec (gate ctx event) w) = branch w.
Proof.
  destruct w as [m b c]. unfold_gate. simpl.
  destruct (mode_is m "approve-all"); simpl; [|reflexivity].
  destruct (hasUI ctx); simpl; [|reflexivity].
  destruct (answers ctx (prompt_count c)); reflexivity.
Qed.

Lemma on_tool_call_exec (ctx : Ctx) (event : ToolCallEvent) (w : World) :
  exec (on_tool_call ctx event) w = exec (gate ctx event) (exec (resolve ctx) w).
Proof. unfold exec at 1. rewrite on_tool_call_split. reflexivity. Qed.

Lemma on_input_exec (ctx : Ctx) (w : World) :
  exec (on_input ctx) w = exec (resolve ctx) w.
Proof.
  unfold on_input, bind, ret, exec. destruct (resolve ctx w) as [[] w']. reflexivity.
Qed.

Lemma on_session_start_mode (ctx : Ctx) (w : World) :
  mode (exec (on_session_start ctx) w) = mode (exec (restoreModeFromBranch ctx) w).
Proof.
  destruct w as [m b c]. unfold_gate. simpl.
  destruct (truthy (coalesce (fold_left scan_entry b None) m)); reflexivity.
Qed.

Lemma on_session_start_branch (ctx : Ctx) (w : World) :
  branch (exec (on_session_start ctx) w) = branch w.
Proof.
  destruct w as [m b c]. unfold_gate. simpl.
  destruct (truthy (coalesce (fold_left scan_entry b None) m)); reflexivity.
Qed.

Lemma command_mode (ctx : Ctx) (w : World) :
  mode (exec (command_approval_mode ctx) w) =
  if hasUI ctx then Some (selected ctx w) else mode w.
Proof.
  destruct w as [m b c]. unfold selected. unfold_gate. simpl.
  destruct (hasUI ctx); simpl; [|reflexivity].
  destruct (answers ctx (prompt_count c)); reflexivity.
Qed.

Lemma command_branch (ctx : Ctx) (w : World) :
  branch (exec (command_approval_mode ctx) w) =
  if hasUI ctx then (branch w ++ [policy_entry (selected ctx w)])%list else branch w.
Proof.
  destruct w as [m b c]. unfold selected. unfold_gate. simpl.
  destruct (hasUI ctx); simpl; [|reflexivity].
  destruct (answers ctx (prompt_count c)); reflexivity.
Qed.

Lemma selected_valid (ctx : Ctx) (w : World) : valid_mode (Some (selected ctx w)).
Proof.
  right. unfold selected.
  destruct (hasUI ctx); [destruct (answers ctx (prompt_count (calls w)))|];
    ((exists AllowAll; reflexivity) || (exists ApproveAll; reflexivity)).
Qed.

Lemma valid_mode_cases (m : option string) :
  valid_mode m <-> m = None \/ m = Some "allow-all" \/ m = Some "approve-all".
Proof.
  unfold valid_mode. split.
  - intros [H | [[] H]]; auto.
  - intros [H | [H | H]]; auto; right;
      [exists AllowAll | exists ApproveAll]; exact H.
Qed.

Lemma last_policy_change_policy_entry (entries : list Entry) (m : string) :
  m = "allow-all" \/ m = "approve-all" ->
  last_policy_change (entries ++ [policy_entry m]) = Some m.
Proof.
  intros H. rewrite last_policy_change_snoc.
  destruct H as [-> | ->]; reflexivity.
Qed.

(** The invariant behind C10, one step at a time. *)
Lemma step_valid_mode (ctx : Ctx) (s : Step) (w : World) :
  valid_mode (mode w) -> valid_mode (mode (step ctx s w)).
Proof.
  intros V.
  assert (R : valid_mode (mode (exec (restoreModeFromBranch ctx) w))).
  { rewrite restore_mode.
    destruct (last_policy_change (branch w)) as [r|] eqn:L; simpl; [|exact V].
    apply valid_mode_cases. apply last_policy_change_valid in L.
    destruct L as [-> | ->]; auto. }
  assert (S : valid_mode (mode (exec (resolve ctx) w))).
  { rewrite resolve_mode. destruct (truthy (mode w)); [exact V|apply selected_valid]. }
  destruct s; simpl.
  - rewrite on_session_start_mode. exact R.
  - exact R.
  - exact R.
  - rewrite on_input_exec. exact S.
  - rewrite on_tool_call_exec, gate_mode. exact S.
  - rewrite command_mode. destruct (hasUI ctx); [apply selected_valid|exact V].
  - exact V.
Qed.

Lemma run_snoc (ctx : Ctx) (steps : list Step) (s : Step) (w : World) :
  run ctx (steps ++ [s]) w = step ctx s (run ctx steps w).
Proof. unfold run. rewrite fold_left_app. reflexivity. Qed.

(** *** C1 *)

(** C1, as stated, fails: the user chose allow-all, then the session moved
    to a branch without any policy-change entry; the restore operation
    leaves the policy at allow-all instead of unset. *)
Lemma restore_without_record_keeps_policy :
  let ctx := user_says true in
  let w := run ctx [Input; Navigate []] (initial []) in
  last_policy_change (branch w) = None /\
  mode (exec (restoreModeFromBranch ctx) w) = Some "allow-all".
Proof. split; reflexivity. Qed.

(** C1, amended: after the restore operation the in-memory policy is the
    value of the last policy-change entry in branch order (a custom entry
    with the policy-change tag and a valid mode payload), and when the
    branch has no such entry the policy is left as it was, so it remains
    unset exactly when it was unset before. *)
Theorem restore_last_policy_change_wins (ctx : Ctx) (w : World) :
  (forall s, last_policy_change (branch w) = Some s ->
     mode (exec (restoreModeFromBranch ctx) w) = Some s) /\
  (last_policy_change (branch w) = None ->
     mode (exec (restoreModeFromBranch ctx) w) = mode w) /\
  (last_policy_change (branch w) = None -> mode w = None ->
     mode (exec (restoreModeFromBranch ctx) w) = None).
Proof.
  rewrite restore_mode.
  repeat split.
  - intros s H. rewrite H. reflexivity.
  - intros H. rewrite H. reflexivity.
  - intros H U. rewrite H. exact U.
Qed.

Lemma restore_last_policy_change_wins_witness :
  let w := mkWorld (Some "allow-all")
             [policy_entry "allow-all"; mkEntry "message" None JNull;
              policy_entry "approve-all"; policy_entry "sometimes";
              mkEntry "custom" (Some STATE_ENTRY_TYPE) JUndefined] [] in
  last_policy_change (branch w) = Some "approve-all" /\
  mode (exec (restoreModeFromBranch headless) w) = Some "approve-all".
Proof.
  intros w. split; [reflexivity|].
  apply (proj1 (restore_last_policy_change_wins headless w) "approve-all").
  reflexivity.
Defined.

(** *** C2 *)

(** C2: a tool call handled while the resolved policy is approve-all and no
    interactive UI is available is always blocked, and the reason contains
    the fixed text saying that confirmation is required. *)
Theorem tool_call_without_ui_blocked (ctx : Ctx) (event : ToolCallEvent) (w : World) :
  hasUI ctx = false ->
  mode (exec (resolve ctx) w) = Some "approve-all" ->
  exists r, eval (on_tool_call ctx event) w = Some r /\
    block r = true /\
    reason r = "Tool call blocked (approve-all mode requires interactive confirmation)" /\
    contains "requires interactive confirmation" (reason r).
Proof.
  intros UI R. unfold eval. rewrite on_tool_call_split.
  destruct (exec (resolve ctx) w) as [m b c]. simpl in R. subst m.
  unfold gate, get_mode, bind, ret. simpl. rewrite UI. simpl.
  eexists. repeat split.
  exists "Tool call blocked (approve-all mode ", ")". reflexivity.
Qed.

Lemma tool_call_without_ui_blocked_witness :
  exists r, eval (on_tool_call headless (mkToolCall "bash" [("command", JStr "ls")]))
                 (initial []) = Some r /\
    block r = true /\
    reason r = "Tool call blocked (approve-all mode requires interactive confirmation)" /\
    contains "requires interactive confirmation" (reason r).
Proof.
  apply (tool_call_without_ui_blocked headless _ (initial [])); reflexivity.
Defined.

(** *** C3 *)

(** C3: a tool call handled while the resolved policy is approve-all and an
    interactive UI is available shows the approval dialog and is blocked if
    and only if that dialog resolves to a declination; the reason of the
    block contains the tool name of the event. *)
Theorem tool_call_with_ui_blocked_iff_declined
    (ctx : Ctx) (event : ToolCallEvent) (w : World) :
  hasUI ctx = true ->
  mode (exec (resolve ctx) w) = Some "approve-all" ->
  let resolved := exec (resolve ctx) w in
  let answer := answers ctx (prompt_count (calls resolved)) in
  calls (exec (on_tool_call ctx event) w) =
    (calls resolved ++
     [Confirm "Approve tool call?"
        ("Tool: " ++ toolName event ++ nl ++ formatToolInput (toolName event) (input event))
        answer])%list /\
  (blocks (eval (on_tool_call ctx event) w) = true <-> answer = false) /\
  (forall r, eval (on_tool_call ctx event) w = Some r ->
     reason r = "Blocked by user (tool: " ++ toolName event ++ ")" /\
     contains (toolName event) (reason r)).
Proof.
  intros UI R resolved answer. subst answer.
  unfold eval, exec at 1. rewrite on_tool_call_split. fold resolved.
  assert (R' : mode resolved = Some "approve-all") by exact R. clearbody resolved.
  destruct resolved as [m b c]. simpl in R'. subst m.
  unfold gate, get_mode, confirm, getEventInput, bind, ret. simpl. rewrite UI. simpl.
  destruct (answers ctx (prompt_count c)); simpl.
  - split; [reflexivity|]. split; [split; discriminate|]. discriminate.
  - split; [reflexivity|]. split; [split; reflexivity|].
    intros r [= <-]. simpl. split; [reflexivity|].
    exists "Blocked by user (tool: ", ")". reflexivity.
Qed.

Lemma tool_call_with_ui_blocked_iff_declined_witness :
  blocks (eval (on_tool_call (user_says false) (mkToolCall "write" [("filePath", JStr "a.txt")]))
               (initial [])) = true.
Proof.
  apply (proj1 (proj2 (tool_call_with_ui_blocked_iff_declined (user_says false)
           (mkToolCall "write" [("filePath", JStr "a.txt")]) (initial [])
           eq_refl eq_refl))).
  reflexivity.
Defined.

(** *** C4 *)

(** C4, as stated, fails: a session whose branch records allow-all (chosen
    earlier with a UI) and that starts without a UI restores allow-all, and
    its tool calls pass unblocked. *)
Lemma headless_session_restores_allow_all :
  let w := run headless [SessionStart] (initial [policy_entry "allow-all"]) in
  hasUI headless = false /\
  mode w = Some "allow-all" /\
  eval (on_tool_call headless (mkToolCall "bash" [("command", JStr "ls")])) w = None.
Proof. repeat split. Qed.

Lemma step_strict (ctx : Ctx) (s : Step) (w : World) :
  hasUI ctx = false ->
  keeps_strict s = true ->
  (mode w = None \/ mode w = Some "approve-all") /\ records_allow_all (branch w) = false ->
  (mode (step ctx s w) = None \/ mode (step ctx s w) = Some "approve-all") /\
  records_allow_all (branch (step ctx s w)) = false.
Proof.
  intros UI K [Hm Hb].
  assert (R : mode (exec (restoreModeFromBranch ctx) w) = None \/
              mode (exec (restoreModeFromBranch ctx) w) = Some "approve-all").
  { rewrite restore_mode. unfold records_allow_all in Hb.
    destruct (last_policy_change (branch w)) as [r|] eqn:L; simpl; [|exact Hm].
    apply last_policy_change_valid in L. destruct L as [-> | ->]; [discriminate|auto]. }
  assert (S : (mode (exec (resolve ctx) w) = None \/
               mode (exec (resolve ctx) w) = Some "approve-all") /\
              records_allow_all (branch (exec (resolve ctx) w)) = false).
  { rewrite resolve_mode, resolve_branch. unfold selected. rewrite UI.
    destruct (truthy (mode w)); [auto|]. split; [auto|].
    unfold records_allow_all. rewrite last_policy_change_policy_entry by auto.
    reflexivity. }
  destruct s; simpl.
  - rewrite on_session_start_mode, on_session_start_branch. auto.
  - auto.
  - auto.
  - rewrite on_input_exec. exact S.
  - rewrite on_tool_call_exec, gate_mode, gate_branch. exact S.
  - rewrite command_mode, command_branch, UI. auto.
  - simpl in K. apply negb_true_iff in K. auto.
Qed.

(** C4, amended: in a session with no interactive UI, lazy resolution sets
    the policy to approve-all only and the mode-switch command leaves it
    alone; the restore operation sets it to the last valid policy-change
    record of the branch, whatever that is.  So whenever the policy is set
    it is approve-all, and never allow-all, as long as it was not allow-all
    before and no branch the session is on has allow-all as its last valid
    policy-change record. *)
Theorem headless_policy_is_approve_all (ctx : Ctx) (steps : list Step) (w : World) :
  hasUI ctx = false ->
  mode w = None \/ mode w = Some "approve-all" ->
  records_allow_all (branch w) = false ->
  forallb keeps_strict steps = true ->
  (mode (run ctx steps w) = None \/ mode (run ctx steps w) = Some "approve-all") /\
  (mode (exec (ensureModeSelected ctx) w) = mode w \/
   mode (exec (ensureModeSelected ctx) w) = Some "approve-all") /\
  mode (exec (command_approval_mode ctx) w) = mode w.
Proof.
  intros UI Hm Hb K. split; [|split].
  - cut ((mode (run ctx steps w) = None \/ mode (run ctx steps w) = Some "approve-all") /\
         records_allow_all (branch (run ctx steps w)) = false); [tauto|].
    induction steps as [|s steps IH] using rev_ind; [auto|].
    rewrite forallb_app in K. apply andb_prop in K. destruct K as [K1 K2].
    simpl in K2. rewrite andb_true_r in K2.
    rewrite run_snoc. apply step_strict; auto.
  - destruct w as [m b c]. unfold_gate. simpl. rewrite UI.
    destruct (truthy m); simpl; auto.
  - rewrite command_mode, UI. reflexivity.
Qed.

Lemma headless_policy_is_approve_all_witness :
  let steps := [SessionStart; ToolCall (mkToolCall "bash" [("command", JStr "ls")]);
                Navigate [policy_entry "approve-all"]; SessionTree; Command; Input] in
  mode (run headless steps (initial [])) = None \/
  mode (run headless steps (initial [])) = Some "approve-all".
Proof.
  intros steps.
  apply (proj1 (headless_policy_is_approve_all headless steps (initial [])
                  eq_refl (or_introl eq_refl) eq_refl eq_refl)).
Defined.

(** *** C5 *)

(** C5, as stated, fails: a tool call arriving before any policy is set, in
    a session with a UI whose user then picks allow-all, is handled under
    the resolved policy allow-all, yet the handler shows a dialog, appends
    to the history and updates the status display. *)
Lemma first_tool_call_prompts_for_policy :
  let ctx := user_says true in
  let event := mkToolCall "bash" [("command", JStr "ls")] in
  mode (exec (resolve ctx) (initial [])) = Some "allow-all" /\
  exec (on_tool_call ctx event) (initial []) =
    mkWorld (Some "allow-all") [policy_entry "allow-all"]
      [Confirm "Permission mode" permission_prompt true;
       AppendEntry STATE_ENTRY_TYPE (JObj [("mode", JStr "allow-all")]);
       SetStatus "approval-mode" (Some "approval: allow all")] /\
  existsb is_prompt (calls (exec (on_tool_call ctx event) (initial []))) = true.
Proof. repeat split. Qed.

Lemma resolve_calls (ctx : Ctx) (w : World) :
  exists extra,
    calls (exec (resolve ctx) w) = (calls w ++ extra)%list /\
    existsb is_approval_prompt extra = false.
Proof.
  destruct w as [m b c]. unfold_gate. simpl.
  destruct (truthy m) eqn:T; simpl.
  - exists []. rewrite app_nil_r. auto.
  - rewrite T. destruct (hasUI ctx); simpl.
    + destruct (answers ctx (prompt_count c)); simpl;
        rewrite <- ?app_assoc; eexists; split; reflexivity.
    + eexists; split; reflexivity.
Qed.

(** C5, amended: a tool call handled while the resolved policy is allow-all
    is never blocked and never shows the tool-approval dialog, and once the
    policy is resolved the handler has no further effect; when the policy
    was already allow-all as the event arrived, the handler shows no dialog
    at all and has no side effect. *)
Theorem tool_call_allow_all_passes (ctx : Ctx) (event : ToolCallEvent) (w : World) :
  mode (exec (resolve ctx) w) = Some "allow-all" ->
  eval (on_tool_call ctx event) w = None /\
  exec (on_tool_call ctx event) w = exec (resolve ctx) w /\
  (exists extra,
     calls (exec (on_tool_call ctx event) w) = (calls w ++ extra)%list /\
     existsb is_approval_prompt extra = false) /\
  (mode w = Some "allow-all" -> exec (on_tool_call ctx event) w = w).
Proof.
  intros R.
  assert (G : gate ctx event (exec (resolve ctx) w) = (None, exec (resolve ctx) w)).
  { destruct (exec (resolve ctx) w) as [m b c]. simpl in R. subst m. reflexivity. }
  assert (E : exec (on_tool_call ctx event) w = exec (resolve ctx) w).
  { unfold exec at 1. rewrite on_tool_call_split, G. reflexivity. }
  split; [|split; [|split]].
  - unfold eval. rewrite on_tool_call_split, G. reflexivity.
  - exact E.
  - rewrite E. apply resolve_calls.
  - intros A. rewrite E. apply resolve_set. rewrite A. reflexivity.
Qed.

Lemma tool_call_allow_all_passes_witness :
  let w := mkWorld (Some "allow-all") [policy_entry "allow-all"] [] in
  let event := mkToolCall "bash" [("command", JStr "rm -rf build")] in
  eval (on_tool_call (user_says false) event) w = None /\
  exec (on_tool_call (user_says false) event) w = w.
Proof.
  intros w event.
  destruct (tool_call_allow_all_passes (user_says false) event w eq_refl)
    as [H1 [_ [_ H4]]].
  split; [exact H1 | exact (H4 eq_refl)].
Defined.

(** *** C6 *)

Lemma status_of_app (key : string) (shown : option string) (l1 l2 : list Call) :
  status_of key shown (l1 ++ l2) = status_of key (status_of key shown l1) l2.
Proof.
  revert shown. induction l1 as [|c l1 IH]; intros shown; [reflexivity|].
  destruct c; simpl; apply IH.
Qed.

(** C6: without an interactive UI the mode-switch command only notifies the
    user that no UI is available: the policy, the history and the status
    display stay as they were.  With a UI it always asks again, whatever
    the policy was, sets the chosen policy, appends it to the history,
    updates the status display and notifies the user of the new mode. *)
Theorem command_switches_policy (ctx : Ctx) (w : World) :
  (hasUI ctx = false ->
     exec (command_approval_mode ctx) w =
       mkWorld (mode w) (branch w)
         (calls w ++ [Notify "No interactive UI available" "warning"]) /\
     forall key shown,
       status_of key shown (calls (exec (command_approval_mode ctx) w)) =
       status_of key shown (calls w)) /\
  (hasUI ctx = true ->
     let answer := answers ctx (prompt_count (calls w)) in
     let chosen := if answer then "allow-all" else "approve-all" in
     exec (command_approval_mode ctx) w =
       mkWorld (Some chosen) (branch w ++ [policy_entry chosen])
         (calls w ++
          [Confirm "Permission mode" permission_prompt answer;
           AppendEntry STATE_ENTRY_TYPE (JObj [("mode", JStr chosen)]);
           SetStatus "approval-mode" (modeStatusText ctx (Some chosen));
           Notify ("Permission mode set to " ++ chosen) "info"]) /\
     last_policy_change (branch (exec (command_approval_mode ctx) w)) = Some chosen /\
     forall shown,
       status_of "approval-mode" shown (calls (exec (command_approval_mode ctx) w)) =
       modeStatusText ctx (Some chosen)).
Proof.
  destruct w as [m b c]. split; intros UI.
  - assert (E : exec (command_approval_mode ctx) (mkWorld m b c) =
                mkWorld m b (c ++ [Notify "No interactive UI available" "warning"])).
    { unfold_gate. rewrite UI. reflexivity. }
    split; [exact E|]. intros key shown. rewrite E. simpl.
    rewrite status_of_app. reflexivity.
  - intros answer chosen.
    assert (E : exec (command_approval_mode ctx) (mkWorld m b c) =
                mkWorld (Some chosen) (b ++ [policy_entry chosen])
                  (c ++ [Confirm "Permission mode" permission_prompt answer;
                         AppendEntry STATE_ENTRY_TYPE (JObj [("mode", JStr chosen)]);
                         SetStatus "approval-mode" (modeStatusText ctx (Some chosen));
                         Notify ("Permission mode set to " ++ chosen) "info"])).
    { subst chosen answer. unfold_gate. rewrite UI. simpl.
      destruct (answers ctx (prompt_count c)); simpl; rewrite <- !app_assoc; reflexivity. }
    split; [exact E|]. rewrite E. simpl. split.
    + apply last_policy_change_policy_entry. subst chosen. destruct answer; auto.
    + intros shown. rewrite status_of_app. reflexivity.
Qed.

Lemma command_switches_policy_witness :
  let w := mkWorld (Some "allow-all") [policy_entry "allow-all"] [] in
  mode (exec (command_approval_mode headless) w) = Some "allow-all" /\
  mode (exec (command_approval_mode (user_says false)) w) = Some "approve-all".
Proof.
  intros w. split.
  - rewrite (proj1 (proj1 (command_switches_policy headless w) eq_refl)). reflexivity.
  - rewrite (proj1 (proj2 (command_switches_policy (user_says false) w) eq_refl)).
    reflexivity.
Defined.

(** *** C8 *)

(** C8: the summary of a tool input is one designated field for each known
    tool name ([command] for bash, [filePath] for write, edit and read, with
    a placeholder when the field is not a string) and the JSON text of the
    whole input, indented by two, for every other name: bash with
    {command: "ls"} gives exactly "command: ls", and an unknown tool with
    {x: 1} gives the JSON text of that object. *)
Theorem formatToolInput_summary (toolName : string) (input : list (string * JValue)) :
  formatToolInput "bash" input =
    "command: " ++ string_or (lookup_field "command" input) "(missing command)" /\
  formatToolInput "write" input =
    "filePath: " ++ string_or (lookup_field "filePath" input) "(missing filePath)" /\
  formatToolInput "edit" input =
    "filePath: " ++ string_or (lookup_field "filePath" input) "(missing filePath)" /\
  formatToolInput "read" input =
    "filePath: " ++ string_or (lookup_field "filePath" input) "(missing filePath)" /\
  (known_tool toolName = false ->
     formatToolInput toolName input = stringify2 input /\
     formatToolInput toolName [("x", JNum 1)] =
       "{" ++ nl ++ "  " ++ dquote ++ "x" ++ dquote ++ ": 1" ++ nl ++ "}") /\
  formatToolInput "bash" [("command", JStr "ls")] = "command: ls".
Proof.
  repeat (split; [reflexivity|]). split; [|reflexivity].
  unfold known_tool. simpl. intros K.
  repeat (apply orb_false_elim in K; destruct K as [? K]).
  unfold formatToolInput.
  repeat match goal with H : String.eqb _ _ = false |- _ => rewrite H; clear H end.
  split; reflexivity.
Qed.

Lemma formatToolInput_summary_witness :
  formatToolInput "grep" [("x", JNum 1)] =
    "{" ++ nl ++ "  " ++ dquote ++ "x" ++ dquote ++ ": 1" ++ nl ++ "}".
Proof.
  apply (proj1 (proj2 (proj2 (proj2 (proj2
           (formatToolInput_summary "grep" [("x", JNum 1)])))))).
  reflexivity.
Defined.

(** *** C10 *)

(** C10: the branch scan skips every custom policy-change entry whose
    payload is missing or whose mode field is not exactly allow-all or
    approve-all, and after every operation of the approval gate the
    in-memory policy is unset or one of these two values. *)
Theorem policy_stays_valid
    (ctx : Ctx) (steps : list Step) (w : World) (restored : option string) (e : Entry) :
  (data e = JUndefined \/ data e = JNull -> scan_entry restored e = restored) /\
  (get_opt (data e) "mode" <> JStr "allow-all" ->
   get_opt (data e) "mode" <> JStr "approve-all" ->
   scan_entry restored e = restored) /\
  (valid_mode (mode w) -> valid_mode (mode (run ctx steps w))) /\
  valid_mode (mode (run ctx steps (initial (branch w)))).
Proof.
  assert (Skip : get_opt (data e) "mode" <> JStr "allow-all" ->
                 get_opt (data e) "mode" <> JStr "approve-all" ->
                 scan_entry restored e = restored).
  { intros H1 H2. rewrite scan_entry_spec.
    destruct (is_policy_change e) eqn:P; [|reflexivity].
    unfold is_policy_change in P. apply andb_prop in P. destruct P as [_ P].
    destruct (get_opt (data e) "mode"); simpl in P; try discriminate.
    apply orb_prop in P. destruct P as [P | P]; apply String.eqb_eq in P; subst;
      [elim H1 | elim H2]; reflexivity. }
  assert (Run : forall w0, valid_mode (mode w0) -> valid_mode (mode (run ctx steps w0))).
  { intros w0 V. induction steps as [|s steps IH] using rev_ind; [exact V|].
    rewrite run_snoc. apply step_valid_mode. exact IH. }
  split; [|split; [|split]].
  - intros [H | H]; apply Skip; rewrite H; discriminate.
  - exact Skip.
  - apply Run.
  - apply Run. left. reflexivity.
Qed.

Lemma policy_stays_valid_witness :
  let e := mkEntry "custom" (Some STATE_ENTRY_TYPE) (JObj [("mode", JStr "deny-all")]) in
  let w := mkWorld (Some "approve-all") [e] [] in
  scan_entry (Some "allow-all") e = Some "allow-all" /\
  valid_mode (mode (run (user_says true) [SessionStart; Command; Navigate []; SessionFork] w)).
Proof.
  intros e w.
  destruct (policy_stays_valid (user_says true)
              [SessionStart; Command; Navigate []; SessionFork] w (Some "allow-all") e)
    as [_ [H2 [H3 _]]].
  split.
  - apply H2; discriminate.
  - apply H3. right. exists ApproveAll. reflexivity.
Defined.

End ApprovalModeSpec.

(** ** Properties of the uptime reporter *)

Module RuntimeUptimeSpec.
Import Js RuntimeUptime.

Ltac unfold_uptime :=
  unfold step, on_session_start, on_session_switch, on_session_shutdown,
    command_uptime, startTimer, stopTimer, renderStatus, setInterval,
    clearInterval, setStatus, notify, log, date_now, set_timer, get_timer,
    get_startTimeMs, exec, eval, bind, ret in *.

(** *** C7 *)

Lemma pad2_below_100 (n : nat) :
  (n < 100)%nat -> String.length (pad2 (Z.of_nat n)) = 2%nat.
Proof.
  intros B. do 100 (destruct n as [|n]; [reflexivity|]). lia.
Qed.

Lemma pad2_two_digits (z : Z) : 0 <= z < 100 -> String.length (pad2 z) = 2%nat.
Proof.
  intros H. rewrite <- (Z2Nat.id z) by lia. apply pad2_below_100. lia.
Qed.

(** C7: the duration formatter turns elapsed milliseconds into zero-padded
    HH:MM:SS and clamps negative inputs to zero: 0 ms gives "00:00:00",
    3661000 ms gives "01:01:01" and every negative value gives
    "00:00:00". *)
Theorem formatDuration_clock (ms : Z) :
  formatDuration 0 = "00:00:00" /\
  formatDuration 3661000 = "01:01:01" /\
  (ms < 0 -> formatDuration ms = "00:00:00") /\
  (0 <= ms ->
     exists h m s,
       0 <= h /\ 0 <= m < 60 /\ 0 <= s < 60 /\
       h * 3600 + m * 60 + s = ms / 1000 /\
       formatDuration ms = pad2 h ++ ":" ++ pad2 m ++ ":" ++ pad2 s /\
       String.length (pad2 m) = 2%nat /\ String.length (pad2 s) = 2%nat).
Proof.
  split; [reflexivity|]. split; [reflexivity|]. split.
  - intros N. unfold formatDuration.
    assert (Q : ms / 1000 < 0) by (apply Z.div_lt_upper_bound; lia).
    rewrite Z.max_l by lia. reflexivity.
  - intros P. unfold formatDuration. fold (pad2 (Z.max 0 (ms / 1000) / 3600)).
    assert (Q : 0 <= ms / 1000) by (apply Z.div_pos; lia).
    rewrite Z.max_r by lia. set (t := ms / 1000) in *.
    rewrite !Z.rem_mod_nonneg by lia.
    exists (t / 3600), (t mod 3600 / 60), (t mod 60).
    assert (Hh : 0 <= t / 3600) by (apply Z.div_pos; lia).
    assert (Hr : 0 <= t mod 3600 < 3600) by (apply Z.mod_pos_bound; lia).
    assert (Hm : 0 <= t mod 3600 / 60 < 60).
    { split; [apply Z.div_pos; lia | apply Z.div_lt_upper_bound; lia]. }
    assert (Hs : 0 <= t mod 60 < 60) by (apply Z.mod_pos_bound; lia).
    assert (E : t mod 60 = (t mod 3600) mod 60).
    { symmetry. apply Z.mod_mod_divide. exists 60. reflexivity. }
    repeat split; try lia.
    + pose proof (Z.div_mod t 3600 ltac:(lia)) as D1.
      pose proof (Z.div_mod (t mod 3600) 60 ltac:(lia)) as D2. lia.
    + apply pad2_two_digits. lia.
    + apply pad2_two_digits. lia.
Qed.

Lemma formatDuration_clock_witness :
  formatDuration (-86400000) = "00:00:00" /\
  exists h m s,
    0 <= h /\ 0 <= m < 60 /\ 0 <= s < 60 /\
    h * 3600 + m * 60 + s = 360000999 / 1000 /\
    formatDuration 360000999 = pad2 h ++ ":" ++ pad2 m ++ ":" ++ pad2 s /\
    String.length (pad2 m) = 2%nat /\ String.length (pad2 s) = 2%nat.
Proof.
  split.
  - apply (proj1 (proj2 (proj2 (formatDuration_clock (-86400000))))). lia.
  - apply (proj2 (proj2 (proj2 (formatDuration_clock 360000999)))). lia.
Defined.

(** *** C9 *)

Lemma stopTimer_exec (w : World) :
  consistent w ->
  exec stopTimer w =
    mkWorld (startTimeMs w) None (now w) [] (nextHandle w) (calls w ++ cancels w).
Proof.
  destruct w as [t0 tm t iv nh c]. unfold consistent, active, held, cancels. simpl.
  intros A. unfold_uptime. simpl. destruct tm as [h|]; simpl.
  - destruct iv as [|[h' x] [|? ?]]; simpl in A; try discriminate.
    injection A as ->. simpl. rewrite Nat.eqb_refl. reflexivity.
  - apply map_eq_nil in A. subst iv. rewrite app_nil_r. reflexivity.
Qed.

Lemma startTimer_exec (ctx : Ctx) (w : World) :
  consistent w ->
  exec (startTimer ctx) w =
    mkWorld (startTimeMs w) (Some (nextHandle w)) (now w) [(nextHandle w, ctx)]
      (S (nextHandle w))
      (calls w ++ cancels w ++
       [SetStatus "runtime-uptime" (Some (uptime_text ctx (startTimeMs w) (now w)));
        SetInterval (nextHandle w) 1000]).
Proof.
  intros A. pose proof (stopTimer_exec w A) as E.
  unfold startTimer, bind, exec in *.
  destruct (stopTimer w) as [[] w']. simpl in E. subst w'.
  unfold_uptime. simpl. rewrite <- !app_assoc. reflexivity.
Qed.

Lemma tick_frame (h : Handle) (w : World) :
  startTimeMs (exec (tick h) w) = startTimeMs w /\
  timer (exec (tick h) w) = timer w /\
  intervals (exec (tick h) w) = intervals w.
Proof.
  unfold tick, exec.
  destruct (find (fun p => Nat.eqb (fst p) h) (intervals w)) as [[h' ctx]|];
    repeat split.
Qed.

Lemma step_consistent (s : Step) (w : World) :
  consistent w ->
  consistent (step s w) /\ startTimeMs (step s w) = startTimeMs w.
Proof.
  intros A. destruct s; simpl.
  - unfold on_session_start. rewrite startTimer_exec by exact A. split; reflexivity.
  - unfold on_session_switch. rewrite startTimer_exec by exact A. split; reflexivity.
  - pose proof (stopTimer_exec w A) as E.
    unfold on_session_shutdown, bind, exec in *.
    destruct (stopTimer w) as [[] w']. simpl in E. subst w'. split; reflexivity.
  - split; [exact A | reflexivity].
  - destruct (tick_frame h w) as [T0 [T1 T2]].
    unfold consistent, active, held in *. rewrite T1, T2. auto.
  - split; [exact A | reflexivity].
Qed.

Lemma uptime_run_snoc (steps : list Step) (s : Step) (w : World) :
  run (steps ++ [s]) w = step s (run steps w).
Proof. unfold run. rewrite fold_left_app. reflexivity. Qed.

Lemma run_consistent (steps : list Step) (w : World) :
  consistent w ->
  consistent (run steps w) /\ startTimeMs (run steps w) = startTimeMs w.
Proof.
  intros A. induction steps as [|s steps [IH1 IH2]] using rev_ind; [auto|].
  rewrite uptime_run_snoc. destruct (step_consistent s _ IH1) as [S1 S2].
  split; [exact S1 | congruence].
Qed.

Lemma uptime_status_of_app (key : string) (shown : option string) (l1 l2 : list Call) :
  status_of key shown (l1 ++ l2) = status_of key (status_of key shown l1) l2.
Proof.
  revert shown. induction l1 as [|c l1 IH]; intros shown; [reflexivity|].
  destruct c; simpl; apply IH.
Qed.

(** C9: whatever the host has done since the extension was set up at time
    [t0], the start display cancels the timer the extension holds before it
    arms the new one, so that at most one periodic timer is armed at any
    time; the start timestamp is still [t0]; and a session switch re-arms
    the timer and shows the time elapsed since [t0]. *)
Theorem uptime_single_timer (t0 : Z) (steps : list Step) (ctx : Ctx) :
  let w := run steps (initial t0) in
  let w' := step (SessionSwitch ctx) w in
  (List.length (active w) <= 1)%nat /\
  active w = held w /\
  startTimeMs w = t0 /\
  calls (exec (startTimer ctx) w) =
    (calls w ++ cancels w ++
     [SetStatus "runtime-uptime" (Some (uptime_text ctx t0 (now w)));
      SetInterval (nextHandle w) 1000])%list /\
  active (exec (startTimer ctx) w) = [nextHandle w] /\
  startTimeMs w' = t0 /\
  active w' = [nextHandle w] /\
  timer w' = Some (nextHandle w) /\
  forall shown,
    status_of "runtime-uptime" shown (calls w') = Some (uptime_text ctx t0 (now w)).
Proof.
  intros w w'.
  destruct (run_consistent steps (initial t0) eq_refl) as [A T]. fold w in A, T.
  simpl in T.
  assert (E : w' = exec (startTimer ctx) w) by reflexivity.
  rewrite E, (startTimer_exec ctx w A), T. simpl.
  repeat split; try assumption.
  - unfold consistent in A. rewrite A. unfold held. destruct (timer w); simpl; lia.
  - intros shown. rewrite !uptime_status_of_app. reflexivity.
Qed.

End RuntimeUptimeSpec.

(** ** Further properties of the approval gate *)

Module ApprovalModeExtra.
Import Js ApprovalMode ApprovalModeSpec.

(** *** Persisting and restoring *)

Lemma last_policy_change_app (b1 b2 : list Entry) :
  last_policy_change (b1 ++ b2) =
  coalesce (last_policy_change b2) (last_policy_change b1).
Proof.
  pose proof (scan_branch (b1 ++ b2) None) as H.
  rewrite fold_left_app, !scan_branch, !coalesce_none in H.
  symmetry. exact H.
Qed.

Lemma last_policy_change_filter (b : list Entry) :
  last_policy_change (filter is_policy_change b) = last_policy_change b.
Proof.
  induction b as [|e b IH] using rev_ind; [reflexivity|].
  rewrite filter_app, last_policy_change_snoc. simpl.
  destruct (is_policy_change e) eqn:E.
  - rewrite last_policy_change_snoc, E. reflexivity.
  - rewrite app_nil_r. exact IH.
Qed.

(** [persistMode] writes nothing while the policy is unset; once it is set
    to one of the two modes, [persistMode] appends one record from which
    [restoreModeFromBranch] gets that policy back, whatever policy the
    restoring instance held before. *)
Theorem persist_restore_round_trip
    (ctx : Ctx) (w : World) (earlier : option string) (log : list Call) :
  valid_mode (mode w) ->
  (mode w = None -> exec persistMode w = w) /\
  (forall m, mode w = Some m ->
     branch (exec persistMode w) = (branch w ++ [policy_entry m])%list /\
     mode (exec (restoreModeFromBranch ctx)
                (mkWorld earlier (branch (exec persistMode w)) log)) = Some m).
Proof.
  intros V. destruct w as [m b c]. simpl in V. split.
  - simpl. intros ->. reflexivity.
  - simpl mode at 1. intros m' ->. apply valid_mode_cases in V.
    assert (A : m' = "allow-all" \/ m' = "approve-all").
    { destruct V as [V | [V | V]]; try discriminate; injection V as ->; auto. }
    assert (B : branch (exec persistMode (mkWorld (Some m') b c)) =
                (b ++ [policy_entry m'])%list).
    { destruct A as [-> | ->]; reflexivity. }
    split; [exact B|].
    rewrite restore_mode. simpl branch. rewrite B.
    rewrite last_policy_change_policy_entry by exact A. reflexivity.
Qed.

Lemma persist_restore_round_trip_witness :
  let w := mkWorld (Some "approve-all") [policy_entry "allow-all"] [] in
  mode (exec (restoreModeFromBranch headless)
             (mkWorld (Some "allow-all") (branch (exec persistMode w)) [])) =
  Some "approve-all".
Proof.
  intros w.
  apply (proj2 (persist_restore_round_trip headless w (Some "allow-all") []
                  (or_intror (ex_intro _ ApproveAll eq_refl)))).
  reflexivity.
Defined.

Lemma new_instance_mode (ctx : Ctx) (entries : list Entry) :
  mode (step ctx SessionStart (initial entries)) = last_policy_change entries.
Proof.
  simpl. rewrite on_session_start_mode, restore_mode. simpl. apply coalesce_none.
Qed.

(** On a new extension instance [session_start] sets the policy to exactly
    the last valid policy-change record of the branch, and leaves it unset
    when the branch has none; it writes nothing to the history. *)
Theorem session_start_on_new_instance (ctx : Ctx) (entries : list Entry) :
  mode (step ctx SessionStart (initial entries)) = last_policy_change entries /\
  branch (step ctx SessionStart (initial entries)) = entries /\
  valid_mode (mode (step ctx SessionStart (initial entries))).
Proof.
  rewrite new_instance_mode. simpl. rewrite on_session_start_branch.
  repeat split.
  destruct (last_policy_change entries) as [s|] eqn:L; [|left; reflexivity].
  apply valid_mode_cases. apply last_policy_change_valid in L.
  destruct L as [-> | ->]; auto.
Qed.

(** Entries that are not valid policy-change records never influence the
    restore: dropping them all from the branch restores the same policy. *)
Theorem restore_ignores_other_entries (ctx : Ctx) (w : World) :
  mode (exec (restoreModeFromBranch ctx) w) =
  mode (exec (restoreModeFromBranch ctx)
             (mkWorld (mode w) (filter is_policy_change (branch w)) (calls w))).
Proof.
  rewrite !restore_mode. simpl. rewrite last_policy_change_filter. reflexivity.
Qed.

(** Restoring from a branch that extends another one: the last valid record
    of the extension wins, and without one the result is what the shorter
    branch restores. *)
Theorem restore_extension_wins
    (ctx : Ctx) (m : option string) (b1 b2 : list Entry) (log : list Call) :
  mode (exec (restoreModeFromBranch ctx) (mkWorld m (b1 ++ b2) log)) =
  coalesce (last_policy_change b2)
           (mode (exec (restoreModeFromBranch ctx) (mkWorld m b1 log))).
Proof.
  rewrite !restore_mode. simpl. rewrite last_policy_change_app.
  destruct (last_policy_change b2); reflexivity.
Qed.

(** *** Memory and history *)

Lemma selected_cases (ctx : Ctx) (w : World) :
  selected ctx w = "allow-all" \/ selected ctx w = "approve-all".
Proof.
  unfold selected.
  destruct (hasUI ctx); [destruct (answers ctx (prompt_count (calls w)))|]; auto.
Qed.

Lemma resolve_recorded (ctx : Ctx) (w : World) :
  recorded w -> recorded (exec (resolve ctx) w).
Proof.
  unfold recorded. rewrite resolve_mode, resolve_branch.
  destruct (truthy (mode w)); [auto|]. intros _. right.
  apply last_policy_change_policy_entry, selected_cases.
Qed.

Lemma restore_recorded (ctx : Ctx) (w : World) :
  recorded w -> recorded (exec (restoreModeFromBranch ctx) w).
Proof.
  unfold recorded. rewrite restore_mode, restore_branch.
  destruct (last_policy_change (branch w)) as [s|]; simpl; [auto|].
  intros [H | H]; auto.
Qed.

Lemma step_recorded (ctx : Ctx) (s : Step) (w : World) :
  is_navigate s = false -> recorded w -> recorded (step ctx s w).
Proof.
  intros N R. destruct s; simpl; try discriminate.
  - pose proof (restore_recorded ctx w R) as H. unfold recorded in *.
    rewrite on_session_start_mode, on_session_start_branch.
    rewrite restore_branch in H. exact H.
  - apply restore_recorded, R.
  - apply restore_recorded, R.
  - rewrite on_input_exec. apply resolve_recorded, R.
  - pose proof (resolve_recorded ctx w R) as H. unfold recorded in *.
    rewrite on_tool_call_exec, gate_mode, gate_branch. exact H.
  - unfold recorded. rewrite command_mode, command_branch.
    destruct (hasUI ctx); [|exact R]. right.
    apply last_policy_change_policy_entry, selected_cases.
Qed.

Lemma run_recorded (ctx : Ctx) (steps : list Step) (w : World) :
  stays_on_branch steps = true -> recorded w -> recorded (run ctx steps w).
Proof.
  intros N R. induction steps as [|s steps IH] using rev_ind; [exact R|].
  unfold stays_on_branch in *. rewrite forallb_app in N.
  apply andb_prop in N. destruct N as [N1 N2]. simpl in N2.
  rewrite andb_true_r in N2. apply negb_true_iff in N2.
  rewrite run_snoc. apply step_recorded; auto.
Qed.

(** A policy survives a reload: as long as only the extension itself has
    touched the branch since it was set up, a new instance started on the
    branch it left behind restores the policy that was in memory. *)
Theorem reload_restores_policy
    (ctx ctx' : Ctx) (steps : list Step) (entries : list Entry) :
  stays_on_branch steps = true ->
  mode (run ctx steps (initial entries)) <> None ->
  mode (reload ctx' (run ctx steps (initial entries))) =
  mode (run ctx steps (initial entries)).
Proof.
  intros N S.
  destruct (run_recorded ctx steps (initial entries) N (or_introl eq_refl)) as [H | H];
    [contradiction|].
  unfold reload. rewrite new_instance_mode. exact H.
Qed.

Lemma reload_restores_policy_witness :
  let steps := [SessionStart; Input; Command; ToolCall (mkToolCall "read" [])] in
  mode (reload headless (run (user_says false) steps (initial []))) =
  mode (run (user_says false) steps (initial [])).
Proof.
  intros steps.
  apply (reload_restores_policy (user_says false) headless steps [] eq_refl).
  discriminate.
Defined.

(** The extension only ever appends to the history, and only valid
    policy-change records: after any steps on one branch, the branch it
    started from is a prefix of the branch it left behind and everything
    after it is a record the scan accepts. *)
Theorem history_only_grows (ctx : Ctx) (steps : list Step) (w : World) :
  stays_on_branch steps = true ->
  exists suffix,
    branch (run ctx steps w) = (branch w ++ suffix)%list /\
    forallb is_policy_change suffix = true.
Proof.
  intros N. induction steps as [|s steps IH] using rev_ind.
  - exists []. simpl. rewrite app_nil_r. auto.
  - unfold stays_on_branch in *. rewrite forallb_app in N.
    apply andb_prop in N. destruct N as [N1 N2]. simpl in N2.
    rewrite andb_true_r in N2. apply negb_true_iff in N2.
    destruct (IH N1) as [suffix [B V]]. rewrite run_snoc.
    set (w1 := run ctx steps w) in *.
    assert (G : forall w2, branch w2 = branch w1 \/
                  branch w2 = (branch w1 ++ [policy_entry (selected ctx w1)])%list ->
                exists suffix',
                  branch w2 = (branch w ++ suffix')%list /\
                  forallb is_policy_change suffix' = true).
    { intros w2 [E | E]; rewrite E, B.
      - exists suffix. auto.
      - exists (suffix ++ [policy_entry (selected ctx w1)])%list.
        rewrite app_assoc, forallb_app, V. split; [reflexivity|].
        destruct (selected_cases ctx w1) as [-> | ->]; reflexivity. }
    apply G. destruct s; simpl; try discriminate.
    + left. apply on_session_start_branch.
    + left. reflexivity.
    + left. reflexivity.
    + rewrite on_input_exec, resolve_branch. destruct (truthy (mode w1)); auto.
    + rewrite on_tool_call_exec, gate_branch, resolve_branch.
      destruct (truthy (mode w1)); auto.
    + rewrite command_branch. destruct (hasUI ctx); auto.
Qed.

Lemma history_only_grows_witness :
  exists suffix,
    branch (run (user_says true) [Input; Command; SessionFork]
                (initial [mkEntry "message" None JNull])) =
      ([mkEntry "message" None JNull] ++ suffix)%list /\
    forallb is_policy_change suffix = true.
Proof.
  apply (history_only_grows (user_says true) [Input; Command; SessionFork]
           (initial [mkEntry "message" None JNull]) eq_refl).
Defined.

(** *** Dialogs and the status display *)

Lemma prompt_count_app (l1 l2 : list Call) :
  prompt_count (l1 ++ l2) = (prompt_count l1 + prompt_count l2)%nat.
Proof.
  induction l1 as [|c l1 IH]; [reflexivity|].
  destruct c; simpl; rewrite IH; reflexivity.
Qed.

Ltac split_conditions :=
  repeat match goal with
         | |- context [if ?c then _ else _] => destruct c eqn:?; simpl
         end.

Lemma step_headless_prompts (ctx : Ctx) (s : Step) (w : World) :
  hasUI ctx = false ->
  prompt_count (calls (step ctx s w)) = prompt_count (calls w).
Proof.
  intros UI. destruct w as [m b c].
  destruct s; simpl; unfold_gate; simpl; rewrite ?UI; simpl;
    split_conditions; rewrite ?UI; simpl; split_conditions;
    rewrite ?prompt_count_app; simpl; lia.
Qed.

(** Without an interactive UI no operation of the gate ever opens a
    dialog: [ctx.ui.confirm] is only reached behind a [hasUI] check. *)
Theorem headless_never_prompts (ctx : Ctx) (steps : list Step) (w : World) :
  hasUI ctx = false ->
  prompt_count (calls (run ctx steps w)) = prompt_count (calls w).
Proof.
  intros UI. induction steps as [|s steps IH] using rev_ind; [reflexivity|].
  rewrite run_snoc, step_headless_prompts by exact UI. exact IH.
Qed.

Lemma headless_never_prompts_witness :
  prompt_count
    (calls (run headless
              [SessionStart; Input; ToolCall (mkToolCall "bash" []); Command]
              (initial []))) = O.
Proof.
  apply (headless_never_prompts headless
           [SessionStart; Input; ToolCall (mkToolCall "bash" []); Command]
           (initial []) eq_refl).
Defined.

Lemma step_status_current (ctx : Ctx) (s : Step) (w : World) :
  hasUI ctx = true -> status_current ctx w -> status_current ctx (step ctx s w).
Proof.
  unfold status_current. intros UI. destruct w as [m b c]. simpl. intros H.
  destruct s; simpl; unfold_gate; simpl; rewrite ?UI; simpl;
    split_conditions; rewrite ?UI; simpl; split_conditions;
    rewrite ?status_of_app; simpl; try reflexivity; try exact H;
    try congruence.
Qed.

(** With an interactive UI the status display always shows the policy in
    memory: whatever the host has done since the extension was set up, the
    last text set under the approval-mode key is the text of the current
    policy, and nothing is shown while the policy is unset. *)
Theorem status_shows_current_policy (ctx : Ctx) (steps : list Step) (entries : list Entry) :
  hasUI ctx = true ->
  status_of "approval-mode" None (calls (run ctx steps (initial entries))) =
  modeStatusText ctx (mode (run ctx steps (initial entries))).
Proof.
  intros UI. induction steps as [|s steps IH] using rev_ind; [reflexivity|].
  rewrite run_snoc. apply step_status_current; assumption.
Qed.

Lemma status_shows_current_policy_witness :
  status_of "approval-mode" None
    (calls (run (user_says false) [Input; Navigate []; SessionTree; Command] (initial []))) =
  Some "approval: confirm each tool".
Proof.
  apply (status_shows_current_policy (user_says false)
           [Input; Navigate []; SessionTree; Command] [] eq_refl).
Defined.

Lemma selected_truthy (ctx : Ctx) (w : World) : truthy (Some (selected ctx w)) = true.
Proof. destruct (selected_cases ctx w) as [-> | ->]; reflexivity. Qed.

(** The [input] and [tool_call] handlers never leave the policy unset, so
    no tool call is ever judged without a policy; and an [input] event that
    finds the policy set changes nothing and opens no dialog. *)
Theorem policy_set_after_first_event (ctx : Ctx) (event : ToolCallEvent) (w : World) :
  truthy (mode (step ctx Input w)) = true /\
  truthy (mode (step ctx (ToolCall event) w)) = true /\
  (truthy (mode w) = true -> exec (on_input ctx) w = w).
Proof.
  assert (R : truthy (mode (exec (resolve ctx) w)) = true).
  { rewrite resolve_mode. destruct (truthy (mode w)) eqn:T; [exact T|].
    apply selected_truthy. }
  simpl. rewrite on_input_exec, on_tool_call_exec, gate_mode.
  repeat split; try exact R. apply resolve_set.
Qed.

Lemma policy_set_after_first_event_witness :
  let w := mkWorld (Some "allow-all") [] [] in
  exec (on_input (user_says false)) w = w.
Proof.
  intros w.
  apply (proj2 (proj2 (policy_set_after_first_event (user_says false)
                         (mkToolCall "bash" []) w))).
  reflexivity.
Defined.

Lemma approval_prompts_app (l1 l2 : list Call) :
  approval_prompts (l1 ++ l2) = (approval_prompts l1 + approval_prompts l2)%nat.
Proof. unfold approval_prompts. rewrite filter_app, length_app. reflexivity. Qed.

Lemma tool_call_asks (ctx : Ctx) (event : ToolCallEvent) (w : World) :
  hasUI ctx = true ->
  mode w = Some "approve-all" ->
  mode (step ctx (ToolCall event) w) = Some "approve-all" /\
  approval_prompts (calls (step ctx (ToolCall event) w)) = S (approval_prompts (calls w)).
Proof.
  intros UI A. destruct w as [m b c]. simpl in A. subst m.
  simpl. unfold_gate. simpl. rewrite UI. simpl.
  destruct (answers ctx (prompt_count c)); simpl;
    rewrite approval_prompts_app; unfold approval_prompts; simpl;
    (split; [reflexivity | lia]).
Qed.

(** An approval is never remembered: under approve-all with a UI every
    tool call opens its own approval dialog, whatever the answers to the
    earlier ones were, and the policy stays approve-all. *)
Theorem every_tool_call_asks (ctx : Ctx) (events : list ToolCallEvent) (w : World) :
  hasUI ctx = true ->
  mode w = Some "approve-all" ->
  mode (run ctx (map ToolCall events) w) = Some "approve-all" /\
  approval_prompts (calls (run ctx (map ToolCall events) w)) =
    (approval_prompts (calls w) + List.length events)%nat.
Proof.
  intros UI A. induction events as [|e events [IH1 IH2]] using rev_ind.
  - simpl. split; [exact A | lia].
  - rewrite map_app. simpl map. rewrite run_snoc.
    destruct (tool_call_asks ctx e _ UI IH1) as [H1 H2].
    split; [exact H1|]. rewrite H2, IH2, length_app. simpl. lia.
Qed.

Lemma every_tool_call_asks_witness :
  let w := mkWorld (Some "approve-all") [] [] in
  let events := [mkToolCall "bash" []; mkToolCall "bash" []; mkToolCall "read" []] in
  approval_prompts (calls (run (user_says true) (map ToolCall events) w)) = 3%nat.
Proof.
  intros w events.
  apply (proj2 (every_tool_call_asks (user_says true) events w eq_refl eq_refl)).
Defined.

(** *** The decision on a tool call *)

Lemma gate_blocks (ctx : Ctx) (event : ToolCallEvent) (w : World) :
  blocks (eval (gate ctx event) w) =
  mode_is (mode w) "approve-all" &&
  (negb (hasUI ctx) || negb (answers ctx (prompt_count (calls w)))).
Proof.
  destruct w as [m b c]. unfold_gate. simpl.
  destruct (mode_is m "approve-all"); simpl; [|reflexivity].
  destruct (hasUI ctx); simpl; [|reflexivity].
  destruct (answers ctx (prompt_count c)); reflexivity.
Qed.


Lemma run_strict (ctx : Ctx) (steps : list Step) (w : World) :
  hasUI ctx = false ->
  forallb keeps_strict steps = true ->
  (mode w = None \/ mode w = Some "approve-all") /\ records_allow_all (branch w) = false ->
  (mode (run ctx steps w) = None \/ mode (run ctx steps w) = Some "approve-all") /\
  records_allow_all (branch (run ctx steps w)) = false.
Proof.
  intros UI K I. induction steps as [|s steps IH] using rev_ind; [exact I|].
  rewrite forallb_app in K. apply andb_prop in K. destruct K as [K1 K2].
  simpl in K2. rewrite andb_true_r in K2.
  rewrite run_snoc. apply step_strict; auto.
Qed.

(** Deny by default without a UI: in a session with no interactive UI
    that starts with the policy unset, every tool call is blocked, however
    many events came before it, unless a branch the session has been on
    records allow-all. *)
Theorem headless_blocks_every_tool_call
    (ctx : Ctx) (steps : list Step) (entries : list Entry) (event : ToolCallEvent) :
  hasUI ctx = false ->
  records_allow_all entries = false ->
  forallb keeps_strict steps = true ->
  blocks (eval (on_tool_call ctx event) (run ctx steps (initial entries))) = true.
Proof.
  intros UI R K.
  destruct (run_strict ctx steps (initial entries) UI K (conj (or_introl eq_refl) R))
    as [M _].
  set (w := run ctx steps (initial entries)) in *.
  unfold eval. rewrite on_tool_call_split.
  change (fst (gate ctx event (exec (resolve ctx) w)))
    with (eval (gate ctx event) (exec (resolve ctx) w)).
  rewrite gate_blocks, resolve_mode, UI. unfold selected. rewrite UI.
  destruct M as [M | M]; rewrite M; reflexivity.
Qed.

Lemma headless_blocks_every_tool_call_witness :
  blocks (eval (on_tool_call headless (mkToolCall "read" [("filePath", JStr "notes.md")]))
               (run headless [SessionStart; Command; Input; SessionFork]
                    (initial [policy_entry "approve-all"; mkEntry "message" None JNull]))) =
  true.
Proof.
  apply (headless_blocks_every_tool_call headless
           [SessionStart; Command; Input; SessionFork]
           [policy_entry "approve-all"; mkEntry "message" None JNull]
           (mkToolCall "read" [("filePath", JStr "notes.md")])
           eq_refl eq_refl eq_refl).
Defined.

(** *** The tool-input summary *)

(** When the designated field of a known tool is absent or is not a string
    (the empty input included), the summary shows a fixed placeholder in
    its place instead of failing. *)
Theorem formatToolInput_placeholder (input : list (string * JValue)) :
  ((forall s, lookup_field "command" input <> JStr s) ->
     formatToolInput "bash" input = "command: (missing command)") /\
  ((forall s, lookup_field "filePath" input <> JStr s) ->
     formatToolInput "write" input = "filePath: (missing filePath)" /\
     formatToolInput "edit" input = "filePath: (missing filePath)" /\
     formatToolInput "read" input = "filePath: (missing filePath)").
Proof.
  unfold formatToolInput. simpl. split; intros H.
  - destruct (lookup_field "command" input); try reflexivity.
    elim (H s). reflexivity.
  - destruct (lookup_field "filePath" input); repeat split.
    all: elim (H s); reflexivity.
Qed.

Lemma formatToolInput_placeholder_witness :
  formatToolInput "bash" [("command", JArr [JStr "ls"]); ("cmd", JStr "ls")] =
    "command: (missing command)" /\
  formatToolInput "edit" [] = "filePath: (missing filePath)".
Proof.
  split.
  - apply (proj1 (formatToolInput_placeholder
                    [("command", JArr [JStr "ls"]); ("cmd", JStr "ls")])).
    discriminate.
  - apply (proj2 (formatToolInput_placeholder [])). discriminate.
Defined.

End ApprovalModeExtra.

(** ** Further properties of the uptime reporter *)

Module RuntimeUptimeExtra.
Import Js RuntimeUptime RuntimeUptimeSpec.

(** *** Timers *)

Lemma consistent_cases (w : World) :
  consistent w ->
  (timer w = None /\ intervals w = []) \/
  (exists h ctx, timer w = Some h /\ intervals w = [(h, ctx)]).
Proof.
  unfold consistent, active, held. intros A.
  destruct (timer w) as [h|].
  - right. destruct (intervals w) as [|[h' ctx] [|? ?]]; simpl in A; try discriminate.
    injection A as ->. exists h, ctx. auto.
  - left. apply map_eq_nil in A. auto.
Qed.

(** After [session_shutdown] nothing is left running: the timer the
    extension held is cancelled, no interval stays armed in the host, the
    status display is cleared, and a tick that was already due does
    nothing. *)
Theorem shutdown_leaves_no_timer (t0 : Z) (steps : list Step) (ctx : Ctx) (h : Handle) :
  let w := run steps (initial t0) in
  let w' := step (SessionShutdown ctx) w in
  active w' = [] /\
  timer w' = None /\
  calls w' = (calls w ++ cancels w ++ [SetStatus "runtime-uptime" None])%list /\
  (forall shown, status_of "runtime-uptime" shown (calls w') = None) /\
  exec (tick h) w' = w'.
Proof.
  intros w w'.
  destruct (run_consistent steps (initial t0) eq_refl) as [A _]. fold w in A.
  assert (E : w' = mkWorld (startTimeMs w) None (now w) [] (nextHandle w)
                     (calls w ++ cancels w ++ [SetStatus "runtime-uptime" None])).
  { pose proof (stopTimer_exec w A) as S. subst w'. simpl.
    unfold on_session_shutdown, bind, exec in *.
    destruct (stopTimer w) as [[] w1]. simpl in S. subst w1.
    unfold setStatus, log. simpl. rewrite <- app_assoc. reflexivity. }
  rewrite E. simpl. repeat split.
  intros shown. rewrite app_assoc, uptime_status_of_app. reflexivity.
Qed.

(** Only the interval the extension currently holds can render: the tick
    of any other handle (one cancelled by an earlier switch or shutdown)
    changes nothing, and the tick of the held one only sets the status to
    the time elapsed since the extension was set up. *)
Theorem tick_renders_only_for_held_timer (t0 : Z) (steps : list Step) (h : Handle) :
  let w := run steps (initial t0) in
  (timer w <> Some h -> exec (tick h) w = w) /\
  (timer w = Some h ->
     exists ctx,
       intervals w = [(h, ctx)] /\
       exec (tick h) w =
         mkWorld t0 (Some h) (now w) [(h, ctx)] (nextHandle w)
           (calls w ++ [SetStatus "runtime-uptime" (Some (uptime_text ctx t0 (now w)))])).
Proof.
  intros w.
  destruct (run_consistent steps (initial t0) eq_refl) as [A T]. fold w in A, T.
  simpl in T. clearbody w.
  destruct w as [s tm t iv nh c]. simpl in T. subst s.
  destruct (consistent_cases _ A) as [[H1 H2] | [h' [ctx [H1 H2]]]];
    simpl in H1, H2; subst tm iv; simpl; split.
  - reflexivity.
  - discriminate.
  - intros N. unfold tick, exec. simpl.
    destruct (Nat.eqb h' h) eqn:E; [|reflexivity].
    apply Nat.eqb_eq in E. subst h'. elim N. reflexivity.
  - intros [= ->]. exists ctx. split; [reflexivity|].
    unfold tick, exec. simpl. rewrite Nat.eqb_refl. reflexivity.
Qed.

Lemma tick_renders_only_for_held_timer_witness :
  let steps := [SessionStart plain; Clock 61000; SessionSwitch plain] in
  exec (tick 0%nat) (run steps (initial 0)) = run steps (initial 0) /\
  exists ctx,
    intervals (run steps (initial 0)) = [(1%nat, ctx)] /\
    exec (tick 1%nat) (run steps (initial 0)) =
      mkWorld 0 (Some 1%nat) (now (run steps (initial 0))) [(1%nat, ctx)]
        (nextHandle (run steps (initial 0)))
        (calls (run steps (initial 0)) ++
         [SetStatus "runtime-uptime"
            (Some (uptime_text ctx 0 (now (run steps (initial 0)))))]).
Proof.
  intros steps. split.
  - apply (proj1 (tick_renders_only_for_held_timer 0 steps 0%nat)). discriminate.
  - apply (proj2 (tick_renders_only_for_held_timer 0 steps 1%nat)). reflexivity.
Defined.

(** *** The displayed duration *)

Lemma formatDuration_negative (ms : Z) : ms < 0 -> formatDuration ms = "00:00:00".
Proof.
  intros N. unfold formatDuration.
  assert (Q : ms / 1000 < 0) by (apply Z.div_lt_upper_bound; lia).
  rewrite Z.max_l by lia. reflexivity.
Qed.

(** When the wall clock has moved back behind the start timestamp the
    [uptime] command reports zero, in the notification and in the status
    display alike, and touches neither the timer nor the start
    timestamp. *)
Theorem clock_skew_reports_zero (ctx : Ctx) (w : World) :
  now w < startTimeMs w ->
  exec (command_uptime ctx) w =
    mkWorld (startTimeMs w) (timer w) (now w) (intervals w) (nextHandle w)
      (calls w ++
       [Notify "pi runtime: 00:00:00" "info";
        SetStatus "runtime-uptime" (Some (fg ctx "dim" "uptime 00:00:00"))]).
Proof.
  intros N. destruct w as [s tm t iv nh c]. simpl in N.
  unfold_uptime. simpl. rewrite formatDuration_negative by lia.
  rewrite <- app_assoc. reflexivity.
Qed.

Lemma clock_skew_reports_zero_witness :
  calls (exec (command_uptime plain) (run [Clock 1000] (initial 5000))) =
    [Notify "pi runtime: 00:00:00" "info";
     SetStatus "runtime-uptime" (Some "uptime 00:00:00")].
Proof.
  rewrite (clock_skew_reports_zero plain (run [Clock 1000] (initial 5000))).
  - reflexivity.
  - simpl. lia.
Defined.

(** The display counts whole seconds: the milliseconds past the last full
    second are dropped, never rounded up. *)
Theorem formatDuration_truncates (q k : Z) :
  0 <= k < 1000 -> formatDuration (1000 * q + k) = formatDuration (1000 * q).
Proof.
  intros K. unfold formatDuration.
  replace ((1000 * q + k) / 1000) with q
    by (apply (Z.div_unique _ 1000 q k); lia).
  replace (1000 * q / 1000) with q
    by (apply (Z.div_unique _ 1000 q 0); lia).
  reflexivity.
Qed.

Lemma formatDuration_truncates_witness : formatDuration 1999 = "00:00:01".
Proof.
  change 1999 with (1000 * 1 + 999).
  rewrite (formatDuration_truncates 1 999) by lia. reflexivity.
Defined.

Lemma length_append (s1 s2 : string) :
  String.length (s1 ++ s2) = (String.length s1 + String.length s2)%nat.
Proof. induction s1 as [|c s1 IH]; simpl; [reflexivity | rewrite IH; reflexivity]. Qed.

Lemma length_substring (k : nat) (s : string) :
  (k <= String.length s)%nat -> String.length (substring 0 k s) = k.
Proof.
  revert s. induction k as [|k IH]; intros s L.
  - destruct s; reflexivity.
  - destruct s as [|c s]; simpl in *; [lia|]. rewrite IH by lia. reflexivity.
Qed.

Lemma length_repeat_string (fill : string) (n : nat) :
  String.length (repeat_string fill n) = (n * String.length fill)%nat.
Proof.
  induction n as [|n IH]; simpl; [reflexivity|]. rewrite length_append, IH. reflexivity.
Qed.

Lemma length_padStart (n : nat) (fill s : string) :
  (0 < String.length fill)%nat ->
  String.length (padStart n fill s) = Nat.max n (String.length s).
Proof.
  intros F. unfold padStart.
  destruct (n <=? String.length s)%nat eqn:L.
  - apply Nat.leb_le in L. lia.
  - apply Nat.leb_gt in L.
    destruct (String.length fill =? 0)%nat eqn:Z0; [apply Nat.eqb_eq in Z0; lia|].
    rewrite length_append, length_substring; [lia|].
    rewrite length_repeat_string. nia.
Qed.

Lemma length_string_of_uint (u : Decimal.uint) :
  String.length (NilEmpty.string_of_uint u) = Decimal.nb_digits u.
Proof. induction u; simpl; congruence. Qed.

Lemma short_numeral_below_100 (d : Decimal.signed_int) :
  (String.length (NilZero.string_of_int d) < 3)%nat -> Z.of_int d < 100.
Proof.
  destruct d as [u|u]; [|intros _; unfold Z.of_int, Z.of_uint; lia].
  intros L.
  destruct u as [|u|u|u|u|u|u|u|u|u|u]; try reflexivity;
    (destruct u as [|u|u|u|u|u|u|u|u|u|u]; try reflexivity;
     (destruct u; [reflexivity | simpl in L; lia ..])).
Qed.

Lemma toString_three_digits (z : Z) : 100 <= z -> (3 <= String.length (toString z))%nat.
Proof.
  intros H. unfold toString.
  destruct (Nat.ltb_spec (String.length (NilZero.string_of_int (Z.to_int z))) 3) as [L|L];
    [|exact L].
  apply short_numeral_below_100 in L. rewrite DecimalZ.of_to in L. lia.
Qed.

Lemma formatDuration_fields (ms : Z) :
  let t := Z.max 0 (ms / 1000) in
  formatDuration ms = pad2 (t / 3600) ++ ":" ++ pad2 (t mod 3600 / 60) ++ ":" ++ pad2 (t mod 60).
Proof.
  intros t. unfold formatDuration. fold t.
  rewrite !Z.rem_mod_nonneg by lia. reflexivity.
Qed.

(** The display is never shorter than the eight characters of HH:MM:SS,
    and it is exactly that long as long as the uptime is under 100 hours:
    from then on the hours field grows, it is neither cut nor wrapped. *)
Theorem formatDuration_width (ms : Z) :
  (8 <= String.length (formatDuration ms))%nat /\
  (String.length (formatDuration ms) = 8%nat <-> ms < 360000000).
Proof.
  rewrite formatDuration_fields. set (t := Z.max 0 (ms / 1000)).
  assert (T : 0 <= t) by lia.
  assert (Hm : String.length (pad2 (t mod 3600 / 60)) = 2%nat).
  { apply pad2_two_digits.
    pose proof (Z.mod_pos_bound t 3600 ltac:(lia)).
    split; [apply Z.div_pos; lia | apply Z.div_lt_upper_bound; lia]. }
  assert (Hs : String.length (pad2 (t mod 60)) = 2%nat).
  { apply pad2_two_digits. pose proof (Z.mod_pos_bound t 60 ltac:(lia)). lia. }
  assert (Hh : String.length (pad2 (t / 3600)) =
               Nat.max 2 (String.length (toString (t / 3600)))).
  { apply length_padStart. simpl. lia. }
  rewrite !length_append, Hm, Hs. simpl String.length.
  assert (Q : ms < 360000000 <-> t / 3600 < 100).
  { subst t. split; intros H.
    - apply Z.div_lt_upper_bound; [lia|].
      assert (ms / 1000 < 360000) by (apply Z.div_lt_upper_bound; lia). lia.
    - destruct (Z.lt_ge_cases ms 360000000) as [L|L]; [exact L|].
      assert (360000 <= ms / 1000) by (apply Z.div_le_lower_bound; lia).
      assert (100 <= Z.max 0 (ms / 1000) / 3600)
        by (apply Z.div_le_lower_bound; lia).
      lia. }
  split; [lia|]. rewrite Q. split; intros H.
  - destruct (Z.lt_ge_cases (t / 3600) 100) as [L|L]; [exact L|].
    pose proof (toString_three_digits _ L). lia.
  - assert (String.length (pad2 (t / 3600)) = 2%nat).
    { apply pad2_two_digits. split; [apply Z.div_pos; lia | exact H]. }
    lia.
Qed.

Lemma formatDuration_width_witness :
  String.length (formatDuration 359999999) = 8%nat /\
  String.length (formatDuration 360000000) <> 8%nat.
Proof.
  split.
  - apply (proj2 (proj2 (formatDuration_width 359999999))). lia.
  - intros H. apply (proj1 (proj2 (formatDuration_width 360000000))) in H. lia.
Defined.

Lemma to_int_parses (z : Z) :
  NilZero.int_of_string (toString z) = Some (Z.to_int z).
Proof.
  unfold toString. apply NilZero.isi; destruct z; simpl; try discriminate;
    intros [= H]; exact (DecimalPos.Unsigned.to_uint_nonnil _ H).
Qed.

Lemma toString_inj (a b : Z) : toString a = toString b -> a = b.
Proof.
  intros H. apply DecimalZ.to_int_inj.
  pose proof (to_int_parses a) as Ha. rewrite H, to_int_parses in Ha.
  injection Ha as Ha. symmetry. exact Ha.
Qed.

Lemma one_digit_numeral_below_10 (d : Decimal.signed_int) :
  (String.length (NilZero.string_of_int d) < 2)%nat -> Z.of_int d < 10.
Proof.
  destruct d as [u|u]; [|intros _; unfold Z.of_int, Z.of_uint; lia].
  intros L.
  destruct u as [|u|u|u|u|u|u|u|u|u|u]; try reflexivity;
    (destruct u; [reflexivity | simpl in L; lia ..]).
Qed.

Lemma pad2_from_10 (z : Z) : 10 <= z -> pad2 z = toString z.
Proof.
  intros H. unfold pad2, padStart.
  destruct (Nat.leb_spec 2 (String.length (toString z))) as [L|L]; [reflexivity|].
  unfold toString in L. apply one_digit_numeral_below_10 in L.
  rewrite DecimalZ.of_to in L. lia.
Qed.

Lemma pad2_below_10 (z : Z) : 0 <= z < 10 -> pad2 z = String "0" (toString z).
Proof.
  intros H.
  assert (C : z = 0 \/ z = 1 \/ z = 2 \/ z = 3 \/ z = 4 \/
              z = 5 \/ z = 6 \/ z = 7 \/ z = 8 \/ z = 9) by lia.
  repeat (destruct C as [-> | C]; [reflexivity|]). subst z. reflexivity.
Qed.

Lemma toString_no_leading_zero (a b : Z) :
  0 <= a < 10 -> 10 <= b -> String "0" (toString a) <> toString b.
Proof.
  intros Ha Hb E. pose proof (to_int_parses b) as P. rewrite <- E in P.
  assert (B : Z.of_int (Z.to_int b) < 10).
  { generalize dependent (Z.to_int b). intros d P.
    assert (C : a = 0 \/ a = 1 \/ a = 2 \/ a = 3 \/ a = 4 \/
                a = 5 \/ a = 6 \/ a = 7 \/ a = 8 \/ a = 9) by lia.
    repeat (destruct C as [-> | C];
            [vm_compute in P; injection P as <-; reflexivity|]).
    subst a. vm_compute in P. injection P as <-. reflexivity. }
  rewrite DecimalZ.of_to in B. lia.
Qed.

Lemma pad2_inj (a b : Z) : 0 <= a -> 0 <= b -> pad2 a = pad2 b -> a = b.
Proof.
  intros Ha Hb E.
  destruct (Z.lt_ge_cases a 10) as [A|A]; destruct (Z.lt_ge_cases b 10) as [B|B].
  - rewrite !pad2_below_10 in E by lia. injection E as E. apply toString_inj, E.
  - rewrite pad2_below_10, pad2_from_10 in E by lia.
    elim (toString_no_leading_zero a b); auto.
  - rewrite pad2_from_10, pad2_below_10 in E by lia.
    elim (toString_no_leading_zero b a); auto.
  - rewrite !pad2_from_10 in E by lia. apply toString_inj, E.
Qed.

Lemma append_inj_length (s1 s2 t1 t2 : string) :
  String.length s1 = String.length s2 ->
  s1 ++ t1 = s2 ++ t2 -> s1 = s2 /\ t1 = t2.
Proof.
  revert s2. induction s1 as [|c s1 IH]; intros [|c' s2] L E;
    simpl in *; try discriminate; [auto|].
  injection E as -> E. destruct (IH s2 ltac:(lia) E) as [-> ->]. auto.
Qed.

(** The display is unambiguous: two durations are shown as the same text
    exactly when they amount to the same number of whole seconds after
    clamping. *)
Theorem formatDuration_same_text (a b : Z) :
  formatDuration a = formatDuration b <-> Z.max 0 (a / 1000) = Z.max 0 (b / 1000).
Proof.
  split.
  - rewrite !formatDuration_fields.
    set (ta := Z.max 0 (a / 1000)). set (tb := Z.max 0 (b / 1000)).
    assert (Ta : 0 <= ta) by lia. assert (Tb : 0 <= tb) by lia.
    pose proof (Z.mod_pos_bound ta 3600 ltac:(lia)) as Ra.
    pose proof (Z.mod_pos_bound tb 3600 ltac:(lia)) as Rb.
    pose proof (Z.mod_pos_bound ta 60 ltac:(lia)) as Sa.
    pose proof (Z.mod_pos_bound tb 60 ltac:(lia)) as Sb.
    assert (Ma : 0 <= ta mod 3600 / 60 < 60)
      by (split; [apply Z.div_pos; lia | apply Z.div_lt_upper_bound; lia]).
    assert (Mb : 0 <= tb mod 3600 / 60 < 60)
      by (split; [apply Z.div_pos; lia | apply Z.div_lt_upper_bound; lia]).
    intros E.
    assert (L : String.length (pad2 (ta / 3600)) = String.length (pad2 (tb / 3600))).
    { apply (f_equal String.length) in E. rewrite !length_append in E.
      rewrite !(pad2_two_digits (ta mod 3600 / 60)) in E by lia.
      rewrite !(pad2_two_digits (tb mod 3600 / 60)) in E by lia.
      rewrite !(pad2_two_digits (ta mod 60)) in E by lia.
      rewrite !(pad2_two_digits (tb mod 60)) in E by lia.
      simpl in E. lia. }
    destruct (append_inj_length _ _ _ _ L E) as [Eh E1].
    injection E1 as E1.
    assert (L2 : String.length (pad2 (ta mod 3600 / 60)) =
                 String.length (pad2 (tb mod 3600 / 60)))
      by (rewrite !pad2_two_digits by lia; reflexivity).
    destruct (append_inj_length _ _ _ _ L2 E1) as [Em E2].
    injection E2 as Es.
    apply pad2_inj in Eh; [| apply Z.div_pos; lia | apply Z.div_pos; lia].
    apply pad2_inj in Em; [| lia | lia].
    apply pad2_inj in Es; [| lia | lia].
    pose proof (Z.div_mod ta 3600 ltac:(lia)) as Da.
    pose proof (Z.div_mod tb 3600 ltac:(lia)) as Db.
    pose proof (Z.div_mod (ta mod 3600) 60 ltac:(lia)) as Da'.
    pose proof (Z.div_mod (tb mod 3600) 60 ltac:(lia)) as Db'.
    assert (Xa : (ta mod 3600) mod 60 = ta mod 60)
      by (apply Z.mod_mod_divide; exists 60; reflexivity).
    assert (Xb : (tb mod 3600) mod 60 = tb mod 60)
      by (apply Z.mod_mod_divide; exists 60; reflexivity).
    lia.
  - intros E. unfold formatDuration. rewrite E. reflexivity.
Qed.

Lemma formatDuration_same_text_witness :
  Z.max 0 (-5 / 1000) = Z.max 0 (999 / 1000).
Proof.
  apply (proj1 (formatDuration_same_text (-5) 999)). reflexivity.
Defined.

End RuntimeUptimeExtra.
